(** * Kazi: the repository state engine of [kazi/main.py]

    A shallow embedding of class [Kazi]: the three JSON documents kept under
    the repository directory (staging, commits, branches) and the methods
    that load, change and store them.  Every method is a function from the
    directory's contents to what it prints together with the new contents. *)

From Stdlib Require Import ZArith String.
From stdpp Require Import base option list gmap strings.

Local Open Scope string_scope.
Local Open Scope Z_scope.
Local Open Scope list_scope.

(** ** Data model *)

(** One value of [branches.json]: [{'commits': [...], 'active': bool}]. *)
Record branch := Branch {
  commits : list Z;
  active : bool
}.

(** One element of [commits.json]. *)
Record commit := Commit {
  id : Z;
  message : string;
  files : list string;
  timestamp : string
}.

(** A Python [dict] keyed by branch name.  Python dictionaries keep insertion
    order and [kazi_commit] takes the first active entry in that order, so
    the table is an association list; a dictionary never holds a key twice,
    which is [dict_ok]. *)
Abbreviation dict := (list (string * branch)).

Definition keys (d : dict) : list string := d.*1.

Definition dict_ok (d : dict) : Prop := NoDup (keys d).

(** [d[k]], [None] where Python raises [KeyError]. *)
Fixpoint dict_get (k : string) (d : dict) : option branch :=
  match d with
  | [] => None
  | (k', v) :: d' => if decide (k = k') then Some v else dict_get k d'
  end.

(** [k in d]. *)
Definition dict_mem (k : string) (d : dict) : bool :=
  bool_decide (is_Some (dict_get k d)).

(** In-place change of the value stored under [k] ([d[k]['f'] = ...],
    [d[k]['commits'].append(...)]).  Every use in the source is on a key that
    was just read from the dictionary or checked to be in it. *)
Fixpoint dict_alter (f : branch → branch) (k : string) (d : dict) : dict :=
  match d with
  | [] => []
  | (k', v) :: d' =>
      if decide (k = k') then (k', f v) :: d' else (k', v) :: dict_alter f k d'
  end.

(** [d[k] = v]: overwrite in place, or insert at the end. *)
Definition dict_set (k : string) (v : branch) (d : dict) : dict :=
  if dict_mem k d then dict_alter (λ _, v) k d else d ++ [(k, v)].

Definition set_active (a : bool) (b : branch) : branch :=
  Branch (commits b) a.

Definition set_commits (l : list Z) (b : branch) : branch :=
  Branch l (active b).

(** [d[k]['commits'].append(c)] *)
Definition append_commit (c : Z) (b : branch) : branch :=
  Branch (commits b ++ [c]) (active b).

(** [d[k]['commits']], read through the dictionary: two names for the same
    key denote the same list object. *)
Definition commits_of (k : string) (d : dict) : list Z :=
  from_option commits [] (dict_get k d).

(** The three documents of one repository directory. *)
Record repo := Repo {
  staging_file : list string;
  commits_file : list commit;
  branches_file : dict
}.

(** What is on disk at [kazi_dir]: [None] when the directory does not exist.
    The [Kazi] object is taken with [kazi_dir] set (built with a project
    name, or after [kazi_init]). *)
Abbreviation disk := (option repo).

(** ** What a method prints and how it ends *)

Inductive printed :=
  | Initializing                       (* "Initializing repository at: ..." *)
  | AlreadyInitialized                 (* "Repository '...' already initialized." *)
  | Initialized                        (* "Initialized empty repository ..." *)
  | RepositoryNotFound                 (* "Not a repository. Run 'kazi init' first." *)
  | FileNotFound (p : string)          (* "File '...' does not exist." *)
  | Adding (p : string)                (* "Adding file: ... to staging area." *)
  | Added (p : string)                 (* "Added '...' to staging area." *)
  | NothingToCommit                    (* "No files to commit." *)
  | Committed (i : Z) (m : string)     (* "Committed with ID ... and message: '...'" *)
  | NoCommitsYet                       (* "No commits yet." *)
  | HistoryLine (i : Z) (m t : string) (* "ID: ..., Message: ..., Timestamp: ..." *)
  | BranchAlreadyExists (n : string)   (* "Branch '...' already exists." *)
  | BranchCreated (n : string)         (* "Branch '...' created." *)
  | BranchNotFound (n : string)        (* "Branch '...' does not exist." *)
  | CheckedOut (n : string)            (* "Checked out to branch '...'." *)
  | BranchesNotFound (s t : string)    (* "One or both branches '...' or '...' do not exist." *)
  | ConflictDetected (cs : list Z)     (* "Merge conflict detected with commits: ..." *)
  | Skipping (c : Z)                   (* "Skipping conflict commit: ..." *)
  | Merged (s t : string)              (* "Branch '...' merged into '...'." *)
  | OnlyIn (n : string) (s : gset Z).  (* "Commits only in ...: {...}" *)

(** Uncaught Python exceptions the methods can end with. *)
Inductive exn :=
  | StopIteration   (* [next] on an exhausted generator *)
  | ValueError.     (* [list.remove(x)] with [x] not in the list *)

Inductive outcome :=
  | Returned (out : list printed)          (* the method printed [out] and returned *)
  | Raised (out : list printed) (x : exn)  (* it printed [out], then an exception escaped *)
  | OutOfFuel.                             (* the model's loop bound was too small *)

(** Values a method can hand back to its caller. *)
Inductive pyvalue :=
  | PyNone
  | PyInt (z : Z).

(** No method of [Kazi] has a [return] with a value: each path ends in a bare
    [return] or falls off the end, so a call that returns evaluates to
    [None]. *)
Definition return_value (o : outcome) : option pyvalue :=
  match o with
  | Returned _ => Some PyNone
  | _ => None
  end.

(** ** kazi_init *)

Definition kazi_init (d : disk) : outcome * disk :=
  match d with
  | Some _ => (Returned [Initializing; AlreadyInitialized], d)
  | None =>
      (Returned [Initializing; Initialized],
       Some (Repo [] [] [("main", Branch [] true)]))
  end.

(** ** kazi_add *)

Section Add.
(** [os.path.exists] on the working files, which no method changes. *)
Variable path_exists : string → bool.

Definition kazi_add (file_path : string) (d : disk) : outcome * disk :=
  match d with
  | None => (Returned [RepositoryNotFound], d)
  | Some r =>
      if negb (path_exists file_path) then (Returned [FileNotFound file_path], d)
      else
        let staged_files := staging_file r in
        if decide (file_path ∈ staged_files) then (Returned [Adding file_path], d)
        else
          (Returned [Adding file_path; Added file_path],
           Some (Repo (staged_files ++ [file_path]) (commits_file r) (branches_file r)))
  end.

(** A run of [add] calls, left to right. *)
Definition add_all (paths : list string) (d : disk) : disk :=
  foldl (λ d p, (kazi_add p d).2) d paths.
End Add.

(** ** kazi_commit *)

(** [next(branch for branch, data in branches.items() if data['active'])],
    [None] for [StopIteration]. *)
Fixpoint first_active (branches : dict) : option string :=
  match branches with
  | [] => None
  | (name, data) :: rest => if active data then Some name else first_active rest
  end.

(** [now] is what [datetime.now().isoformat()] gives at the call. *)
Definition kazi_commit (now : string) (msg : string) (d : disk) : outcome * disk :=
  match d with
  | None => (Returned [RepositoryNotFound], d)
  | Some r =>
      let staged_files := staging_file r in
      let log := commits_file r in
      let branches := branches_file r in
      match staged_files with
      | [] => (Returned [NothingToCommit], d)
      | _ :: _ =>
          let commit_id := Z.of_nat (length log) + 1 in
          let c := Commit commit_id msg staged_files now in
          let log := log ++ [c] in
          match first_active branches with
          | None => (Raised [] StopIteration, d)
          | Some active_branch =>
              let branches := dict_alter (append_commit commit_id) active_branch branches in
              (Returned [Committed commit_id msg], Some (Repo [] log branches))
          end
      end
  end.

(** ** kazi_commit_history *)

Definition kazi_commit_history (d : disk) : outcome * disk :=
  match d with
  | None => (Returned [RepositoryNotFound], d)
  | Some r =>
      match commits_file r with
      | [] => (Returned [NoCommitsYet], d)
      | log => (Returned (map (λ c, HistoryLine (id c) (message c) (timestamp c)) log), d)
      end
  end.

(** ** kazi_create_branch *)

Definition kazi_create_branch (branch_name : string) (d : disk) : outcome * disk :=
  match d with
  | None => (Returned [RepositoryNotFound], d)
  | Some r =>
      let branches := branches_file r in
      if dict_mem branch_name branches then (Returned [BranchAlreadyExists branch_name], d)
      else
        let branches := dict_set branch_name (Branch [] false) branches in
        (Returned [BranchCreated branch_name],
         Some (Repo (staging_file r) (commits_file r) branches))
  end.

(** ** kazi_checkout *)

(** [for branch in branches: branches[branch]['active'] = False] *)
Definition deactivate_all (branches : dict) : dict :=
  foldl (λ bs name, dict_alter (set_active false) name bs) branches (keys branches).

Definition kazi_checkout (branch_name : string) (d : disk) : outcome * disk :=
  match d with
  | None => (Returned [RepositoryNotFound], d)
  | Some r =>
      let branches := branches_file r in
      if negb (dict_mem branch_name branches) then (Returned [BranchNotFound branch_name], d)
      else
        let branches := deactivate_all branches in
        let branches := dict_alter (set_active true) branch_name branches in
        (Returned [CheckedOut branch_name],
         Some (Repo (staging_file r) (commits_file r) branches))
  end.

(** One entry after [branches[branch]['active'] = False]. *)
Definition clear_flag (kv : string * branch) : string * branch :=
  (kv.1, set_active false kv.2).

(** A run of [checkout] calls, left to right. *)
Definition checkout_all (names : list string) (d : disk) : disk :=
  foldl (λ d n, (kazi_checkout n d).2) d names.

(** ** kazi_merge *)

(** [l.remove(x)]: drop the first occurrence, [None] for [ValueError]. *)
Fixpoint py_remove (x : Z) (l : list Z) : option (list Z) :=
  match l with
  | [] => None
  | y :: l' => if decide (x = y) then Some l' else (y ::.) <$> py_remove x l'
  end.

(** [source_commits] and [target_commits] are the list objects stored in the
    dictionary, not copies: the loops below read and write them through the
    dictionary, so a merge of a branch with itself works on one shared list. *)
Section Merge.
Variables source_branch target_branch : string.

(** [[commit for commit in source_commits if commit in target_commits]] *)
Definition conflicts_of (branches : dict) : list Z :=
  filter (λ c, c ∈ commits_of target_branch branches) (commits_of source_branch branches).

(** [for conflict in conflicts: ...] with the answer read from the operator. *)
Fixpoint resolve (resolution : string) (conflicts : list Z)
    (out : list printed) (branches : dict) : exn + (list printed * dict) :=
  match conflicts with
  | [] => inr (out, branches)
  | conflict :: rest =>
      if decide (resolution = "s") then
        match py_remove conflict (commits_of source_branch branches) with
        | None => inl ValueError
        | Some l =>
            resolve resolution rest out (dict_alter (set_commits l) source_branch branches)
        end
      else if decide (resolution = "t") then resolve resolution rest out branches
      else resolve resolution rest (out ++ [Skipping conflict]) branches
  end.

(** [target_commits.extend(commit for commit in source_commits
    if commit not in target_commits)].  [extend] pulls the generator one
    item at a time and appends each item as it arrives; the generator walks
    [source_commits] by position [i] and tests membership in the list as it
    is at that moment.  [None] when [fuel] runs out before the walk ends. *)
Fixpoint extend_from (fuel : nat) (i : nat) (branches : dict) : option dict :=
  match commits_of source_branch branches !! i with
  | None => Some branches
  | Some c =>
      match fuel with
      | O => None
      | S fuel' =>
          extend_from fuel' (S i)
            (if decide (c ∈ commits_of target_branch branches) then branches
             else dict_alter (append_commit c) target_branch branches)
      end
  end.

(** [resolution] is the line [input] returns; it is read only when there
    are conflicts. *)
Definition kazi_merge (resolution : string) (d : disk) : outcome * disk :=
  match d with
  | None => (Returned [RepositoryNotFound], d)
  | Some r =>
      let branches := branches_file r in
      if negb (dict_mem source_branch branches) || negb (dict_mem target_branch branches)
      then (Returned [BranchesNotFound source_branch target_branch], d)
      else
        let conflicts := conflicts_of branches in
        let resolved :=
          match conflicts with
          | [] => inr ([], branches)
          | _ :: _ => resolve resolution conflicts [ConflictDetected conflicts] branches
          end in
        match resolved with
        | inl x => (Raised [ConflictDetected conflicts] x, d)
        | inr (out, branches) =>
            match extend_from (length (commits_of source_branch branches)) 0 branches with
            | None => (OutOfFuel, d)
            | Some branches =>
                (Returned (out ++ [Merged source_branch target_branch]),
                 Some (Repo (staging_file r) (commits_file r) branches))
            end
        end
  end.
End Merge.

(** ** kazi_diff *)

Definition kazi_diff (branch1 branch2 : string) (d : disk) : outcome * disk :=
  match d with
  | None => (Returned [RepositoryNotFound], d)
  | Some r =>
      let branches := branches_file r in
      if negb (dict_mem branch1 branches) || negb (dict_mem branch2 branches)
      then (Returned [BranchesNotFound branch1 branch2], d)
      else
        let commits1 : gset Z := list_to_set (commits_of branch1 branches) in
        let commits2 : gset Z := list_to_set (commits_of branch2 branches) in
        (Returned [OnlyIn branch1 (commits1 ∖ commits2);
                   OnlyIn branch2 (commits2 ∖ commits1)], d)
  end.

(** ** The methods as one transition function *)

Inductive op :=
  | Init
  | Add (file_path : string)
  | CommitOp (now msg : string)
  | History
  | CreateBranch (branch_name : string)
  | Checkout (branch_name : string)
  | Merge (source_branch target_branch resolution : string)
  | Diff (branch1 branch2 : string).

Definition run (path_exists : string → bool) (o : op) (d : disk) : outcome * disk :=
  match o with
  | Init => kazi_init d
  | Add p => kazi_add path_exists p d
  | CommitOp now msg => kazi_commit now msg d
  | History => kazi_commit_history d
  | CreateBranch n => kazi_create_branch n d
  | Checkout n => kazi_checkout n d
  | Merge s t res => kazi_merge s t res d
  | Diff a b => kazi_diff a b d
  end.

Definition run_all (path_exists : string → bool) (os : list op) (d : disk) : disk :=
  foldl (λ d o, (run path_exists o d).2) d os.

(** States reached from an empty directory by calls of the methods. *)
Definition reachable (path_exists : string → bool) (d : disk) : Prop :=
  ∃ os, d = run_all path_exists os None.

(** ** Predicates of the claims *)

(** The names of the branches whose [active] flag is set, in table order. *)
Definition active_names (branches : dict) : list string :=
  keys (filter (λ kv, active kv.2 = true) branches).

Definition one_active (branches : dict) : Prop :=
  length (active_names branches) = 1%nat.

Definition exists_all (path_exists : string → bool) (paths : list string) : Prop :=
  Forall (λ p, path_exists p = true) paths.

(** The id the next commit gets: [len(commits) + 1]. *)
Definition next_id (r : repo) : Z := Z.of_nat (length (commits_file r)) + 1.

(** The repository a commit to branch [a] stores when it goes through. *)
Definition committed_to (now msg a : string) (r : repo) : repo :=
  Repo []
    (commits_file r ++ [Commit (next_id r) msg (staging_file r) now])
    (dict_alter (append_commit (next_id r)) a (branches_file r)).

(** The data model's invariants: no path staged twice, no branch name
    twice, one branch active. *)
Definition repo_inv (r : repo) : Prop :=
  NoDup (staging_file r) ∧ dict_ok (branches_file r) ∧ one_active (branches_file r).

Definition disk_inv (d : disk) : Prop :=
  match d with
  | None => True
  | Some r => repo_inv r
  end.

Definition is_checkout (o : op) : bool :=
  match o with
  | Checkout _ => true
  | _ => false
  end.

(** ** Closed forms of the loops of [kazi_merge] *)

(** [l.remove(c)] for each [c] of [cs] in turn. *)
Fixpoint remove_each (cs l : list Z) : option (list Z) :=
  match cs with
  | [] => Some l
  | c :: cs' => py_remove c l ≫= remove_each cs'
  end.

(** The source list once the conflicts are resolved: answer "s" takes the
    ids that are also in the target out of it, any other answer leaves it. *)
Definition resolved_source (resolution : string) (src tgt : list Z) : list Z :=
  if decide (resolution = "s") then filter (λ c, c ∉ tgt) src else src.

(** What [extend] makes of a target list [tgt] fed from another list [src]:
    each id goes in unless the target, as grown so far, has it. *)
Definition extend_pure (src tgt : list Z) : list Z :=
  foldl (λ t c, if decide (c ∈ t) then t else t ++ [c]) tgt src.

(** ** Predicates of the further properties *)


(** The lines a method prints just before a bare [return] that gives up. *)
Definition is_refusal (m : printed) : bool :=
  match m with
  | AlreadyInitialized | RepositoryNotFound | FileNotFound _ | NothingToCommit
  | BranchAlreadyExists _ | BranchNotFound _ | BranchesNotFound _ _ => true
  | _ => false
  end.

(** A branch whose list names no commit twice and only ids among the first
    [n] the log hands out. *)
Definition branch_ok (n : nat) (v : branch) : Prop :=
  NoDup (commits v) ∧ Forall (λ c, 1 ≤ c ≤ Z.of_nat n) (commits v).

(** The ids of the log count up from 1, and every branch refers to the log. *)
Definition history_inv (r : repo) : Prop :=
  id <$> commits_file r = seqZ 1 (Z.of_nat (length (commits_file r))) ∧
  Forall (λ kv, branch_ok (length (commits_file r)) kv.2) (branches_file r).

(** ** Sample repositories *)

(** What [kazi_init] leaves on disk. *)
Definition fresh : repo := Repo [] [] [("main", Branch [] true)].

(** One file staged, nothing committed yet. *)
Definition staged_once : repo := Repo ["x.txt"] [] [("main", Branch [] true)].

(** A branches document with two entries flagged active. *)
Definition two_active : repo :=
  Repo ["f"] [] [("a", Branch [] true); ("b", Branch [] true)].

(** A branches document with no entry flagged active. *)
Definition none_active : repo := Repo ["f"] [] [("a", Branch [] false)].

(** The spec's scenario after the second commit: [main] holds 1, [feature] 2. *)
Definition two_branches : repo :=
  Repo [] [Commit 1 "first" ["x.txt"] "t0"; Commit 2 "second" ["y.txt"] "t1"]
    [("main", Branch [1] false); ("feature", Branch [2] true)].

(** Every path exists. *)
Definition all_exist (p : string) : bool := true.

(** * Properties *)

(** ** The dictionary *)

Section Dict.
Implicit Types (d : dict) (k : string) (f : branch → branch).

Lemma dict_mem_keys k d : dict_mem k d = true ↔ k ∈ keys d.
Proof.
  unfold dict_mem, keys. rewrite bool_decide_eq_true.
  induction d as [|[k' v] d IH]; simpl.
  - split; [intros [? ?]; discriminate | intros H; inversion H].
  - destruct (decide (k = k')) as [->|Hne].
    + split; [intros _; left | eauto].
    + rewrite IH. split; [by right | ].
      intros H. inversion H; [congruence | done].
Qed.

Lemma dict_mem_get k d : dict_mem k d = true → ∃ v, dict_get k d = Some v.
Proof. unfold dict_mem. rewrite bool_decide_eq_true. by intros [v ?]; exists v. Qed.

Lemma keys_alter f k d : keys (dict_alter f k d) = keys d.
Proof.
  unfold keys. induction d as [|[k' v] d IH]; csimpl; [done|].
  destruct (decide (k = k')); csimpl; [done | by rewrite IH].
Qed.

Lemma dict_get_alter f k d : dict_get k (dict_alter f k d) = f <$> dict_get k d.
Proof.
  induction d as [|[k' v] d IH]; simpl; [done|].
  destruct (decide (k = k')) as [->|Hne]; simpl.
  - by rewrite decide_True.
  - by rewrite decide_False.
Qed.

Lemma dict_get_alter_ne f k k' d :
  k ≠ k' → dict_get k' (dict_alter f k d) = dict_get k' d.
Proof.
  intros Hne. induction d as [|[k0 v] d IH]; simpl; [done|].
  destruct (decide (k = k0)) as [->|Hne0]; simpl.
  - by rewrite !decide_False by congruence.
  - destruct (decide (k' = k0)); [done | apply IH].
Qed.

Lemma dict_mem_alter f k k' d : dict_mem k' (dict_alter f k d) = dict_mem k' d.
Proof.
  apply eq_true_iff_eq. by rewrite !dict_mem_keys, keys_alter.
Qed.

Lemma dict_alter_alter f g k d :
  dict_alter f k (dict_alter g k d) = dict_alter (f ∘ g) k d.
Proof.
  induction d as [|[k' v] d IH]; simpl; [done|].
  destruct (decide (k = k')) as [->|Hne]; simpl.
  - by rewrite decide_True.
  - by rewrite decide_False, IH.
Qed.

Lemma dict_alter_ext f g k d :
  (∀ v, dict_get k d = Some v → f v = g v) → dict_alter f k d = dict_alter g k d.
Proof.
  induction d as [|[k' v] d IH]; simpl; [done|]. intros H.
  destruct (decide (k = k')) as [->|Hne].
  - by rewrite H.
  - by rewrite IH.
Qed.

Lemma dict_alter_id f k d :
  (∀ v, dict_get k d = Some v → f v = v) → dict_alter f k d = d.
Proof.
  induction d as [|[k' v] d IH]; simpl; [done|]. intros H.
  destruct (decide (k = k')) as [->|Hne].
  - by rewrite H.
  - by rewrite IH.
Qed.

Lemma commits_of_alter f k d :
  dict_mem k d = true →
  commits_of k (dict_alter f k d) = commits (f (default (Branch [] false) (dict_get k d))).
Proof.
  intros [v Hv]%dict_mem_get. unfold commits_of.
  by rewrite dict_get_alter, Hv.
Qed.

Lemma commits_of_set_commits l k d :
  dict_mem k d = true → commits_of k (dict_alter (set_commits l) k d) = l.
Proof. intros H. by rewrite commits_of_alter. Qed.

Lemma set_commits_id k d : dict_alter (set_commits (commits_of k d)) k d = d.
Proof.
  apply dict_alter_id. intros [l a] Hv. unfold commits_of. by rewrite Hv.
Qed.

Lemma commits_of_alter_ne f k k' d :
  k ≠ k' → commits_of k' (dict_alter f k d) = commits_of k' d.
Proof. intros H. unfold commits_of. by rewrite dict_get_alter_ne. Qed.

(** Changing a value without touching its flag keeps the active names. *)
Lemma active_names_cons k v d :
  active_names ((k, v) :: d) =
  if active v then k :: active_names d else active_names d.
Proof.
  unfold active_names, keys. rewrite filter_cons; simpl.
  destruct (active v); [by rewrite decide_True | by rewrite decide_False].
Qed.

Lemma active_names_alter f k d :
  (∀ v, active (f v) = active v) →
  active_names (dict_alter f k d) = active_names d.
Proof.
  intros Hf. induction d as [|[k' v] d IH]; simpl; [done|].
  destruct (decide (k = k')) as [->|Hne]; rewrite !active_names_cons.
  - by rewrite Hf.
  - by rewrite IH.
Qed.

Lemma first_active_head d : first_active d = head (active_names d).
Proof.
  induction d as [|[k v] d IH]; simpl; [done|].
  rewrite active_names_cons. by destruct (active v).
Qed.

Lemma active_names_keys k d : k ∈ active_names d → k ∈ keys d.
Proof.
  induction d as [|[k' v] d IH]; [done|].
  rewrite active_names_cons. unfold keys in *; csimpl.
  destruct (active v); rewrite ?elem_of_cons; intuition.
Qed.

(** Under [dict_ok] an active name is the key of an entry whose flag is set. *)
Lemma active_names_get k d :
  dict_ok d → k ∈ active_names d → ∃ v, dict_get k d = Some v ∧ active v = true.
Proof.
  unfold dict_ok.
  induction d as [|[k' v] d IH]; [by intros _ H; inversion H|].
  rewrite active_names_cons. unfold keys; csimpl.
  intros [Hk' Hnd]%NoDup_cons Hin.
  destruct (decide (k = k')) as [->|Hne].
  - destruct (active v) eqn:Ha; [eauto|].
    exfalso. apply Hk'. by apply (active_names_keys k' d).
  - apply IH; [done|]. destruct (active v); [|done].
    apply elem_of_cons in Hin as [?|?]; [congruence | done].
Qed.
End Dict.

(** ** kazi_commit *)

Section Commit.
Variables now msg : string.

Lemma kazi_commit_first_active r a :
  staging_file r ≠ [] →
  first_active (branches_file r) = Some a →
  kazi_commit now msg (Some r) =
    (Returned [Committed (next_id r) msg], Some (committed_to now msg a r)).
Proof.
  intros Hs Ha. unfold kazi_commit, committed_to, next_id.
  destruct (staging_file r) as [|p ps] eqn:E; [done|]. by rewrite Ha.
Qed.

Lemma kazi_commit_no_active r :
  staging_file r ≠ [] →
  first_active (branches_file r) = None →
  kazi_commit now msg (Some r) = (Raised [] StopIteration, Some r).
Proof.
  intros Hs Ha. unfold kazi_commit.
  destruct (staging_file r) as [|p ps] eqn:E; [done|]. by rewrite Ha.
Qed.
End Commit.

Lemma one_active_inv (d : dict) : one_active d → ∃ a, active_names d = [a].
Proof.
  unfold one_active. destruct (active_names d) as [|a [|b l]]; simpl; try done.
  by exists a.
Qed.

(** C1. With files staged and exactly one active branch, [commit] appends one
    record to the commit log, with id the former length plus 1 and the staged
    paths as files, appends that id to the active branch's list, leaves every
    other branch as it was, and empties the staging set. *)
Theorem commit_appends_one (now msg : string) (r : repo) :
  staging_file r ≠ [] →
  dict_ok (branches_file r) →
  one_active (branches_file r) →
  ∃ a v r',
    active_names (branches_file r) = [a] ∧
    dict_get a (branches_file r) = Some v ∧ active v = true ∧
    let cid := Z.of_nat (length (commits_file r)) + 1 in
    kazi_commit now msg (Some r) = (Returned [Committed cid msg], Some r') ∧
    commits_file r' = commits_file r ++ [Commit cid msg (staging_file r) now] ∧
    length (commits_file r') = S (length (commits_file r)) ∧
    dict_get a (branches_file r') = Some (Branch (commits v ++ [cid]) true) ∧
    (∀ n, n ≠ a → dict_get n (branches_file r') = dict_get n (branches_file r)) ∧
    keys (branches_file r') = keys (branches_file r) ∧
    staging_file r' = [].
Proof.
  intros Hs Hok [a Ha]%one_active_inv.
  destruct (active_names_get a (branches_file r) Hok) as (v & Hv & Hav).
  { rewrite Ha. by left. }
  exists a, v, (committed_to now msg a r). split; [done|]. split; [done|]. split; [done|].
  simpl. split.
  { apply kazi_commit_first_active; [done|]. by rewrite first_active_head, Ha. }
  split; [done|]. split.
  { rewrite length_app. simpl. lia. }
  split.
  { rewrite dict_get_alter, Hv. simpl. unfold append_commit. by rewrite Hav. }
  split; [|split; [apply keys_alter | done]].
  intros n Hn. by apply dict_get_alter_ne.
Qed.

Lemma commit_appends_one_witness :
  ∃ a v r',
    active_names (branches_file staged_once) = [a] ∧
    dict_get a (branches_file staged_once) = Some v ∧ active v = true ∧
    kazi_commit "t0" "first" (Some staged_once) = (Returned [Committed 1 "first"], Some r') ∧
    commits_file r' = [Commit 1 "first" ["x.txt"] "t0"] ∧
    length (commits_file r') = 1%nat ∧
    dict_get a (branches_file r') = Some (Branch (commits v ++ [1]) true) ∧
    (∀ n, n ≠ a → dict_get n (branches_file r') = dict_get n (branches_file staged_once)) ∧
    keys (branches_file r') = keys (branches_file staged_once) ∧
    staging_file r' = [].
Proof.
  apply (commit_appends_one "t0" "first" staged_once).
  - discriminate.
  - unfold dict_ok. vm_compute. apply NoDup_singleton.
  - reflexivity.
Defined.

(** C7. With an empty staging set [commit] prints "No files to commit." and
    returns: staging, commit log and branches stay as they were. *)
Theorem commit_nothing_staged (now msg : string) (r : repo) :
  staging_file r = [] →
  kazi_commit now msg (Some r) = (Returned [NothingToCommit], Some r).
Proof. intros Hs. unfold kazi_commit. by rewrite Hs. Qed.

Lemma commit_nothing_staged_witness :
  kazi_commit "t0" "first" (Some fresh) = (Returned [NothingToCommit], Some fresh).
Proof. apply (commit_nothing_staged "t0" "first" fresh). reflexivity. Defined.

(** C2, as the code has it.  With files staged: when no branch is active,
    [next] raises [StopIteration] before anything is written, so the three
    documents stay as they were; when one or more branches are active the
    commit goes through on the first active branch in table order. *)
Theorem commit_active_resolution (now msg : string) (r : repo) :
  staging_file r ≠ [] →
  (active_names (branches_file r) = [] →
     kazi_commit now msg (Some r) = (Raised [] StopIteration, Some r)) ∧
  (∀ a rest, active_names (branches_file r) = a :: rest →
     kazi_commit now msg (Some r) =
       (Returned [Committed (next_id r) msg], Some (committed_to now msg a r))).
Proof.
  intros Hs. split.
  - intros Ha. apply kazi_commit_no_active; [done|]. by rewrite first_active_head, Ha.
  - intros a rest Ha. apply kazi_commit_first_active; [done|].
    by rewrite first_active_head, Ha.
Qed.

Lemma commit_active_resolution_witness :
  (active_names (branches_file two_active) = [] →
     kazi_commit "t" "m" (Some two_active) = (Raised [] StopIteration, Some two_active)) ∧
  (∀ a rest, active_names (branches_file two_active) = a :: rest →
     kazi_commit "t" "m" (Some two_active) =
       (Returned [Committed (next_id two_active) "m"], Some (committed_to "t" "m" a two_active))).
Proof. apply (commit_active_resolution "t" "m" two_active). discriminate. Defined.

(** C2 as stated fails: with two branches flagged active the commit does not
    fail, it is recorded on the first of them and all three documents change. *)
Lemma commit_two_active_succeeds :
  length (active_names (branches_file two_active)) = 2%nat ∧
  kazi_commit "t" "m" (Some two_active) =
    (Returned [Committed 1 "m"],
     Some (Repo [] [Commit 1 "m" ["f"] "t"]
             [("a", Branch [1] true); ("b", Branch [] true)])) ∧
  staging_file two_active ≠ [] ∧
  commits_file two_active ≠ [Commit 1 "m" ["f"] "t"] ∧
  branches_file two_active ≠ [("a", Branch [1] true); ("b", Branch [] true)].
Proof. repeat split; try reflexivity; discriminate. Qed.

(** ** kazi_add *)

Section AddProps.
Variable path_exists : string → bool.

Lemma kazi_add_new p r :
  path_exists p = true → p ∉ staging_file r →
  kazi_add path_exists p (Some r) =
    (Returned [Adding p; Added p],
     Some (Repo (staging_file r ++ [p]) (commits_file r) (branches_file r))).
Proof.
  intros He Hp. unfold kazi_add. rewrite He. simpl. by rewrite decide_False.
Qed.

Lemma kazi_add_staged p r :
  path_exists p = true → p ∈ staging_file r →
  kazi_add path_exists p (Some r) = (Returned [Adding p], Some r).
Proof.
  intros He Hp. unfold kazi_add. rewrite He. simpl. by rewrite decide_True.
Qed.

Lemma add_all_cons p paths d :
  add_all path_exists (p :: paths) d =
  add_all path_exists paths (kazi_add path_exists p d).2.
Proof. reflexivity. Qed.

(** A run of adds keeps what was staged, stages every path given, stages
    nothing else, and never stages a path twice. *)
Lemma add_all_staging paths : ∀ r,
  exists_all path_exists paths →
  NoDup (staging_file r) →
  ∃ r', add_all path_exists paths (Some r) = Some r' ∧
        NoDup (staging_file r') ∧
        (∀ p, p ∈ staging_file r' ↔ p ∈ staging_file r ∨ p ∈ paths) ∧
        commits_file r' = commits_file r ∧
        branches_file r' = branches_file r.
Proof.
  unfold exists_all.
  induction paths as [|p paths IH]; intros r Hex Hnd.
  - exists r. repeat split; try done; [by left | intros [?|H]; [done | inversion H]].
  - apply Forall_cons in Hex as [Hp Hex]. rewrite add_all_cons.
    destruct (decide (p ∈ staging_file r)) as [Hin|Hin].
    + rewrite kazi_add_staged by done. simpl.
      destruct (IH r Hex Hnd) as (r' & -> & Hnd' & Hmem & Hc & Hb).
      exists r'. repeat split; try done.
      * intros H. apply Hmem in H as [?|?]; [by left | right; by right].
      * intros [H|H]; apply Hmem; [by left|].
        apply elem_of_cons in H as [->|H]; [by left | by right].
    + rewrite kazi_add_new by done. simpl.
      destruct (IH (Repo (staging_file r ++ [p]) (commits_file r) (branches_file r)) Hex)
        as (r' & -> & Hnd' & Hmem & Hc & Hb).
      { simpl. apply NoDup_app. split; [done|]. split; [|apply NoDup_singleton].
        intros x Hx Hx'. apply list_elem_of_singleton in Hx' as ->. done. }
      simpl in *. exists r'. repeat split; try done.
      * intros H. apply Hmem in H as [H|H]; [|right; by right].
        apply elem_of_app in H as [H|H]; [by left|].
        apply list_elem_of_singleton in H as ->. right; by left.
      * intros H. apply Hmem. rewrite elem_of_app, list_elem_of_singleton.
        destruct H as [H|H]; [by left; left|].
        apply elem_of_cons in H as [->|H]; [left; by right | by right].
Qed.
End AddProps.

(** C10, as the code has it.  On an existing path [add] returns no value
    ([None]): the staging count after the call, one more than before for a
    path not yet staged and the same as before otherwise, is only to be read
    from the staging document. *)
Theorem add_returns_none (path_exists : string → bool) (p : string) (r : repo) :
  path_exists p = true →
  ∃ out r',
    kazi_add path_exists p (Some r) = (Returned out, Some r') ∧
    return_value (Returned out) = Some PyNone ∧
    length (staging_file r') =
      if decide (p ∈ staging_file r) then length (staging_file r)
      else S (length (staging_file r)).
Proof.
  intros He. destruct (decide (p ∈ staging_file r)) as [Hin|Hin].
  - exists [Adding p], r. by rewrite kazi_add_staged.
  - eexists _, _. rewrite kazi_add_new by done. split; [done|]. split; [done|].
    simpl. rewrite length_app. simpl. lia.
Qed.

Lemma add_returns_none_witness :
  ∃ out r',
    kazi_add all_exist "x.txt" (Some fresh) = (Returned out, Some r') ∧
    return_value (Returned out) = Some PyNone ∧
    length (staging_file r') = 1%nat.
Proof. apply (add_returns_none all_exist "x.txt" fresh). reflexivity. Defined.

(** C10 as stated fails: the first [add] in a fresh repository leaves one
    path staged, and the call evaluates to [None], not to the count 1. *)
Lemma add_does_not_return_count :
  let res := kazi_add all_exist "x.txt" (Some fresh) in
  (staging_file <$> res.2) = Some ["x.txt"] ∧
  return_value res.1 = Some PyNone ∧
  return_value res.1 ≠ Some (PyInt 1).
Proof. repeat split; discriminate. Qed.

(** ** kazi_diff *)

(** C8. For two existing branches the two sets [diff] prints are disjoint,
    and together with the ids common to both branches they make up all ids
    of the two branches. *)
Theorem diff_partition (branch1 branch2 : string) (r : repo) :
  dict_mem branch1 (branches_file r) = true →
  dict_mem branch2 (branches_file r) = true →
  ∃ only1 only2 : gset Z,
    kazi_diff branch1 branch2 (Some r) =
      (Returned [OnlyIn branch1 only1; OnlyIn branch2 only2], Some r) ∧
    let A : gset Z := list_to_set (commits_of branch1 (branches_file r)) in
    let B : gset Z := list_to_set (commits_of branch2 (branches_file r)) in
    (∀ c, c ∈ only1 ↔ c ∈ commits_of branch1 (branches_file r) ∧
                        c ∉ commits_of branch2 (branches_file r)) ∧
    (∀ c, c ∈ only2 ↔ c ∈ commits_of branch2 (branches_file r) ∧
                        c ∉ commits_of branch1 (branches_file r)) ∧
    only1 ## only2 ∧
    only1 ∪ only2 ∪ (A ∩ B) = A ∪ B.
Proof.
  intros H1 H2. eexists _, _. unfold kazi_diff. rewrite H1, H2. simpl.
  split; [done|]. split; [|split; [|split]].
  - intros c. rewrite elem_of_difference, !elem_of_list_to_set. done.
  - intros c. rewrite elem_of_difference, !elem_of_list_to_set. done.
  - apply elem_of_disjoint.
    intros c [? ?]%elem_of_difference [? ?]%elem_of_difference. done.
  - apply set_eq. intros c.
    rewrite !elem_of_union, elem_of_intersection, !elem_of_difference.
    destruct (decide (c ∈ (list_to_set (commits_of branch1 (branches_file r)) : gset Z)));
      destruct (decide (c ∈ (list_to_set (commits_of branch2 (branches_file r)) : gset Z)));
      tauto.
Qed.

Lemma diff_partition_witness :
  ∃ only1 only2 : gset Z,
    kazi_diff "main" "feature" (Some two_branches) =
      (Returned [OnlyIn "main" only1; OnlyIn "feature" only2], Some two_branches) ∧
    let A : gset Z := list_to_set (commits_of "main" (branches_file two_branches)) in
    let B : gset Z := list_to_set (commits_of "feature" (branches_file two_branches)) in
    (∀ c, c ∈ only1 ↔ c ∈ commits_of "main" (branches_file two_branches) ∧
                        c ∉ commits_of "feature" (branches_file two_branches)) ∧
    (∀ c, c ∈ only2 ↔ c ∈ commits_of "feature" (branches_file two_branches) ∧
                        c ∉ commits_of "main" (branches_file two_branches)) ∧
    only1 ## only2 ∧
    only1 ∪ only2 ∪ (A ∩ B) = A ∪ B.
Proof. apply (diff_partition "main" "feature" two_branches); reflexivity. Defined.

(** ** kazi_checkout *)

Section CheckoutProps.
Implicit Types (d : dict) (k : string).

Lemma foldl_alter_keys f (ks : list string) : ∀ d,
  keys (foldl (λ bs name, dict_alter f name bs) d ks) = keys d.
Proof.
  induction ks as [|k ks IH]; intros d; simpl; [done|].
  by rewrite IH, keys_alter.
Qed.

(** Names other than the head's pass over the head entry. *)
Lemma foldl_alter_skip f k v (ks : list string) : ∀ d,
  k ∉ ks →
  foldl (λ bs name, dict_alter f name bs) ((k, v) :: d) ks =
  (k, v) :: foldl (λ bs name, dict_alter f name bs) d ks.
Proof.
  induction ks as [|k' ks IH]; intros d Hk; simpl; [done|].
  apply not_elem_of_cons in Hk as [Hne Hk].
  rewrite decide_False by done. by apply IH.
Qed.

(** On a dictionary the loop clears the flag of every entry. *)
Lemma deactivate_all_map (d : dict) :
  dict_ok d → deactivate_all d = clear_flag <$> d.
Proof.
  unfold dict_ok, deactivate_all, keys.
  induction d as [|[k v] d IH]; csimpl; [done|].
  intros [Hk Hnd]%NoDup_cons. rewrite decide_True by done.
  rewrite foldl_alter_skip by done. by rewrite IH.
Qed.

Lemma deactivate_all_keys d : keys (deactivate_all d) = keys d.
Proof. apply foldl_alter_keys. Qed.

Lemma active_names_cleared (d : dict) :
  active_names (clear_flag <$> d) = [].
Proof.
  induction d as [|[k v] d IH]; csimpl; [done|].
  unfold clear_flag at 1. by rewrite active_names_cons.
Qed.

Lemma active_names_activate k d :
  active_names d = [] → k ∈ keys d →
  active_names (dict_alter (set_active true) k d) = [k].
Proof.
  unfold keys. induction d as [|[k' v] d IH]; csimpl; [by intros _ H; inversion H|].
  rewrite active_names_cons. destruct (active v) eqn:Hv; [done|].
  intros Hd Hin. destruct (decide (k = k')) as [->|Hne].
  - rewrite active_names_cons. simpl. by rewrite Hd.
  - rewrite active_names_cons, Hv. apply IH; [done|].
    apply elem_of_cons in Hin as [?|?]; [congruence | done].
Qed.

(** [checkout] of an existing name: every flag is cleared, then the flag of
    [k] is set; staging and commit log are not written. *)
Lemma kazi_checkout_existing k r :
  dict_ok (branches_file r) →
  dict_mem k (branches_file r) = true →
  ∃ r', kazi_checkout k (Some r) = (Returned [CheckedOut k], Some r') ∧
        branches_file r' =
          dict_alter (set_active true) k
            (clear_flag <$> branches_file r) ∧
        active_names (branches_file r') = [k] ∧
        keys (branches_file r') = keys (branches_file r) ∧
        staging_file r' = staging_file r ∧
        commits_file r' = commits_file r.
Proof.
  intros Hok Hk. unfold kazi_checkout. rewrite Hk. simpl.
  eexists. split; [done|]. simpl.
  rewrite <- deactivate_all_map by done.
  split; [done|]. split; [|split; [|done]].
  - apply active_names_activate.
    + rewrite deactivate_all_map by done. apply active_names_cleared.
    + rewrite deactivate_all_keys. by apply dict_mem_keys.
  - by rewrite keys_alter, deactivate_all_keys.
Qed.

Lemma checkout_all_cons k names (d : disk) :
  checkout_all (k :: names) d = checkout_all names (kazi_checkout k d).2.
Proof. reflexivity. Qed.

Lemma checkout_all_existing names : ∀ r,
  dict_ok (branches_file r) →
  Forall (λ k, dict_mem k (branches_file r) = true) names →
  ∃ r', checkout_all names (Some r) = Some r' ∧
        active_names (branches_file r') =
          from_option (λ k, [k]) (active_names (branches_file r)) (last names) ∧
        keys (branches_file r') = keys (branches_file r) ∧
        staging_file r' = staging_file r ∧
        commits_file r' = commits_file r.
Proof.
  induction names as [|k names IH]; intros r Hok Hall.
  - by exists r.
  - apply Forall_cons in Hall as [Hk Hall]. rewrite checkout_all_cons.
    destruct (kazi_checkout_existing k r Hok Hk) as (r1 & -> & _ & Ha & Hkeys & Hs & Hc).
    simpl. destruct (IH r1) as (r' & -> & Ha' & Hkeys' & Hs' & Hc').
    { unfold dict_ok. by rewrite Hkeys. }
    { eapply Forall_impl; [exact Hall|]. intros n Hn. simpl in Hn.
      apply dict_mem_keys. rewrite Hkeys. by apply dict_mem_keys. }
    exists r'. split; [done|]. split; [|split; [congruence | split; congruence]].
    rewrite Ha', Ha. destruct names as [|k' names]; [done|].
    rewrite last_cons_cons.
    destruct (last (k' :: names)) eqn:E; [done|]. by apply last_None in E.
Qed.
End CheckoutProps.

(** ** kazi_merge: the loops *)

Lemma filter_nothing (P : Z → Prop) `{!∀ x, Decision (P x)} (l : list Z) :
  (∀ x, x ∈ l → ¬ P x) → filter P l = [].
Proof.
  intros Hall. destruct (filter P l) as [|x l'] eqn:E; [done|].
  assert (x ∈ filter P l) as [Hx Hl]%list_elem_of_filter by (rewrite E; by left).
  exfalso. by apply (Hall x).
Qed.

Section RemoveProps.
Lemma remove_each_skip y cs : ∀ l,
  y ∉ cs → remove_each cs (y :: l) = (y ::.) <$> remove_each cs l.
Proof.
  induction cs as [|c cs IH]; intros l Hy; simpl; [done|].
  apply not_elem_of_cons in Hy as [Hne Hy].
  rewrite decide_False by done.
  destruct (py_remove c l) as [l'|]; simpl; [by apply IH | done].
Qed.

(** Removing, one at a time, the elements of [l] that satisfy [P] leaves
    the elements that do not: no [remove] fails. *)
Lemma remove_each_filter (P : Z → Prop) `{!∀ x, Decision (P x)} (l : list Z) :
  remove_each (filter P l) l = Some (filter (λ x, ¬ P x) l).
Proof.
  induction l as [|x l IH]; [done|].
  rewrite !filter_cons. destruct (decide (P x)) as [Hx|Hx].
  - rewrite decide_False by tauto. simpl. by rewrite decide_True.
  - rewrite decide_True by done. rewrite remove_each_skip, IH; [done|].
    by intros [? _]%list_elem_of_filter.
Qed.
End RemoveProps.

Section ExtendProps.
Lemma extend_pure_cons c src tgt :
  extend_pure (c :: src) tgt =
  extend_pure src (if decide (c ∈ tgt) then tgt else tgt ++ [c]).
Proof. reflexivity. Qed.

(** The ids [extend] appends: fresh for the target, each once, in the order
    of the source list, and every such id of the source list is there. *)
Lemma extend_pure_added src : ∀ tgt,
  ∃ added,
    extend_pure src tgt = tgt ++ added ∧
    NoDup added ∧
    (∀ c, c ∈ added ↔ c ∈ src ∧ c ∉ tgt) ∧
    sublist added src.
Proof.
  induction src as [|c src IH]; intros tgt.
  - exists []. rewrite app_nil_r. split; [done|]. split; [constructor|].
    split; [|done]. intros c. split; [intros H; inversion H | intros [H _]; inversion H].
  - rewrite extend_pure_cons. destruct (decide (c ∈ tgt)) as [Hc|Hc].
    + destruct (IH tgt) as (added & -> & Hnd & Hmem & Hsub).
      exists added. split; [done|]. split; [done|]. split; [|by apply sublist_cons].
      intros x. rewrite Hmem, elem_of_cons. split; [intros [? ?]; eauto|].
      intros [[->|?] ?]; done.
    + destruct (IH (tgt ++ [c])) as (added & -> & Hnd & Hmem & Hsub).
      exists (c :: added). split; [by rewrite <- app_assoc|].
      split; [|split; [|by apply sublist_skip]].
      * apply NoDup_cons. split; [|done]. rewrite Hmem, elem_of_app, list_elem_of_singleton.
        intros [_ H]. apply H. by right.
      * intros x. rewrite !elem_of_cons, Hmem, elem_of_app, list_elem_of_singleton.
        split.
        -- intros [->|[? ?]]; [by eauto|]. split; [by right | tauto].
        -- intros [[->|?] ?]; [by left|].
           destruct (decide (x = c)) as [->|?]; [by left | right; tauto].
Qed.

(** Nothing is appended when the target already has every id of the source. *)
Lemma extend_pure_covered src tgt :
  (∀ c, c ∈ src → c ∈ tgt) → extend_pure src tgt = tgt.
Proof.
  induction src as [|c src IH]; intros H; [done|].
  rewrite extend_pure_cons, decide_True by (apply H; by left).
  apply IH. intros x Hx. apply H. by right.
Qed.
End ExtendProps.

Section MergeLoops.
Variables source_branch target_branch : string.
Implicit Types (branches : dict).

(** Answer "s": every [remove] is done on the stored source list. *)
Lemma resolve_keep_source conflicts : ∀ out branches,
  dict_mem source_branch branches = true →
  resolve source_branch "s" conflicts out branches =
    match remove_each conflicts (commits_of source_branch branches) with
    | None => inl ValueError
    | Some l => inr (out, dict_alter (set_commits l) source_branch branches)
    end.
Proof.
  induction conflicts as [|c cs IH]; intros out branches Hs; simpl.
  - by rewrite set_commits_id.
  - destruct (py_remove c (commits_of source_branch branches)) as [l|]; simpl; [|done].
    rewrite IH by (by rewrite dict_mem_alter).
    rewrite commits_of_set_commits by done.
    destruct (remove_each cs l) as [l'|]; [|done].
    by rewrite dict_alter_alter.
Qed.

(** Any other answer leaves the dictionary alone. *)
Lemma resolve_other resolution conflicts : ∀ out branches,
  resolution ≠ "s" →
  ∃ out', resolve source_branch resolution conflicts out branches = inr (out', branches).
Proof.
  induction conflicts as [|c cs IH]; intros out branches Hr; simpl; [by eauto|].
  rewrite decide_False by done. destruct (decide (resolution = "t")); by apply IH.
Qed.

(** The resolution loop never raises on the conflicts the method computes,
    and stores [resolved_source] as the source list. *)
Lemma resolve_conflicts resolution out branches :
  dict_mem source_branch branches = true →
  ∃ out',
    resolve source_branch resolution
      (conflicts_of source_branch target_branch branches) out branches =
    inr (out',
         dict_alter
           (set_commits (resolved_source resolution
                           (commits_of source_branch branches)
                           (commits_of target_branch branches)))
           source_branch branches).
Proof.
  intros Hs. unfold resolved_source, conflicts_of.
  destruct (decide (resolution = "s")) as [->|Hr].
  - exists out. rewrite resolve_keep_source by done.
    by rewrite (remove_each_filter (λ c, c ∈ commits_of target_branch branches)).
  - rewrite set_commits_id. by apply resolve_other.
Qed.

Lemma extend_from_eq fuel i branches :
  extend_from source_branch target_branch fuel i branches =
    match commits_of source_branch branches !! i with
    | None => Some branches
    | Some c =>
        match fuel with
        | O => None
        | S fuel' =>
            extend_from source_branch target_branch fuel' (S i)
              (if decide (c ∈ commits_of target_branch branches) then branches
               else dict_alter (append_commit c) target_branch branches)
        end
    end.
Proof. by destruct fuel. Qed.

(** [extend] on two different lists ends within [length src] steps and
    stores [extend_pure] as the target list. *)
Lemma extend_from_distinct fuel : ∀ i branches,
  source_branch ≠ target_branch →
  dict_mem target_branch branches = true →
  (length (commits_of source_branch branches) ≤ fuel + i)%nat →
  extend_from source_branch target_branch fuel i branches =
    Some (dict_alter
            (set_commits (extend_pure (drop i (commits_of source_branch branches))
                                      (commits_of target_branch branches)))
            target_branch branches).
Proof.
  induction fuel as [|fuel IH]; intros i branches Hne Ht Hlen;
    rewrite extend_from_eq;
    destruct (commits_of source_branch branches !! i) as [c|] eqn:Hi.
  - apply lookup_lt_Some in Hi. lia.
  - apply lookup_ge_None_1 in Hi. rewrite drop_ge by done.
    unfold extend_pure. simpl. by rewrite set_commits_id.
  - rewrite (drop_S _ _ _ Hi), extend_pure_cons.
    destruct (decide (c ∈ commits_of target_branch branches)) as [Hc|Hc].
    + apply IH; [done | done | lia].
    + rewrite IH; [|done|by rewrite dict_mem_alter|].
      2:{ rewrite commits_of_alter_ne by done. lia. }
      rewrite commits_of_alter_ne by done.
      rewrite commits_of_alter by done. rewrite dict_alter_alter.
      f_equal. unfold commits_of.
      destruct (dict_mem_get _ _ Ht) as [v ->]. simpl.
      by apply dict_alter_ext.
  - apply lookup_ge_None_1 in Hi. rewrite drop_ge by done.
    unfold extend_pure. simpl. by rewrite set_commits_id.
Qed.
End MergeLoops.

Section MergeSelf.
Variable name : string.

(** [extend] of a list with itself: every id met is in the list, nothing
    is appended, and the walk ends at the end of the list. *)
Lemma extend_from_self fuel : ∀ i (branches : dict),
  (length (commits_of name branches) ≤ fuel + i)%nat →
  extend_from name name fuel i branches = Some branches.
Proof.
  induction fuel as [|fuel IH]; intros i branches Hlen;
    rewrite extend_from_eq;
    destruct (commits_of name branches !! i) as [c|] eqn:Hi; try done.
  - apply lookup_lt_Some in Hi. lia.
  - rewrite decide_True by (by eapply list_elem_of_lookup_2).
    apply IH. lia.
Qed.
End MergeSelf.

(** ** kazi_merge: the method *)

Section MergeProps.
Variables source_branch target_branch : string.

Lemma merge_resolved resolution (branches : dict) :
  dict_mem source_branch branches = true →
  ∃ out,
    match conflicts_of source_branch target_branch branches with
    | [] => inr ([], branches)
    | _ :: _ =>
        resolve source_branch resolution
          (conflicts_of source_branch target_branch branches)
          [ConflictDetected (conflicts_of source_branch target_branch branches)]
          branches
    end =
    inr (out,
         dict_alter
           (set_commits (resolved_source resolution
                           (commits_of source_branch branches)
                           (commits_of target_branch branches)))
           source_branch branches).
Proof.
  intros Hs.
  destruct (conflicts_of source_branch target_branch branches) as [|c cs] eqn:E.
  - destruct (resolve_conflicts source_branch target_branch resolution [] branches Hs)
      as [out H].
    rewrite E in H. by exists out.
  - rewrite <- E. by apply resolve_conflicts.
Qed.

(** Merge of two different branches: the source list becomes
    [resolved_source], the target list [extend_pure] of it. *)
Lemma kazi_merge_distinct resolution r :
  source_branch ≠ target_branch →
  dict_mem source_branch (branches_file r) = true →
  dict_mem target_branch (branches_file r) = true →
  let src := commits_of source_branch (branches_file r) in
  let tgt := commits_of target_branch (branches_file r) in
  let post := resolved_source resolution src tgt in
  ∃ out,
    kazi_merge source_branch target_branch resolution (Some r) =
      (Returned out,
       Some (Repo (staging_file r) (commits_file r)
               (dict_alter (set_commits (extend_pure post tgt)) target_branch
                  (dict_alter (set_commits post) source_branch (branches_file r))))).
Proof.
  intros Hne Hs Ht src tgt post.
  destruct (merge_resolved resolution (branches_file r) Hs) as [out Hres].
  exists (out ++ [Merged source_branch target_branch]).
  unfold kazi_merge. rewrite Hs, Ht. cbn [negb orb]. rewrite Hres.
  rewrite extend_from_distinct; [|done|by rewrite dict_mem_alter|lia].
  rewrite commits_of_set_commits by done.
  rewrite commits_of_alter_ne by done. by rewrite drop_0.
Qed.

Lemma resolved_source_self resolution (l : list Z) :
  resolved_source resolution l l = if decide (resolution = "s") then [] else l.
Proof.
  unfold resolved_source. destruct (decide (resolution = "s")); [|done].
  apply filter_nothing. intros x Hx Hn. by apply Hn.
Qed.
End MergeProps.

(** Merge of a branch with itself: source and target are one list, which is
    left as the resolution loop leaves it. *)
Lemma kazi_merge_self (name resolution : string) (r : repo) :
  dict_mem name (branches_file r) = true →
  ∃ out,
    kazi_merge name name resolution (Some r) =
      (Returned out,
       Some (Repo (staging_file r) (commits_file r)
               (dict_alter
                  (set_commits (if decide (resolution = "s") then []
                                else commits_of name (branches_file r)))
                  name (branches_file r)))).
Proof.
  intros Hs.
  destruct (merge_resolved name name resolution (branches_file r) Hs) as [out Hres].
  exists (out ++ [Merged name name]).
  unfold kazi_merge. rewrite Hs. cbn [negb orb]. rewrite Hres.
  rewrite extend_from_self by lia. by rewrite resolved_source_self.
Qed.

(** What a merge of two existing branches stores, in both cases at once. *)
Lemma kazi_merge_lists (source_branch target_branch resolution : string) (r : repo) :
  dict_mem source_branch (branches_file r) = true →
  dict_mem target_branch (branches_file r) = true →
  let src := commits_of source_branch (branches_file r) in
  let tgt := commits_of target_branch (branches_file r) in
  let post := resolved_source resolution src tgt in
  ∃ out r',
    kazi_merge source_branch target_branch resolution (Some r) = (Returned out, Some r') ∧
    dict_mem source_branch (branches_file r') = true ∧
    dict_mem target_branch (branches_file r') = true ∧
    commits_of source_branch (branches_file r') = post ∧
    commits_of target_branch (branches_file r') =
      (if decide (source_branch = target_branch) then post else extend_pure post tgt).
Proof.
  intros Hs Ht src tgt post.
  destruct (decide (source_branch = target_branch)) as [<-|Hne].
  - destruct (kazi_merge_self source_branch resolution r Hs) as [out Hm].
    eexists _, _. split; [exact Hm|]. simpl. rewrite dict_mem_alter.
    rewrite commits_of_set_commits by done.
    unfold post, src, tgt. by rewrite resolved_source_self.
  - destruct (kazi_merge_distinct source_branch target_branch resolution r Hne Hs Ht)
      as [out Hm].
    eexists _, _. split; [exact Hm|]. simpl. rewrite !dict_mem_alter.
    rewrite commits_of_alter_ne by done.
    by rewrite !commits_of_set_commits by (by rewrite ?dict_mem_alter).
Qed.

Lemma resolved_source_elem (resolution : string) (src tgt : list Z) (c : Z) :
  c ∈ resolved_source resolution src tgt → c ∈ src.
Proof.
  unfold resolved_source. destruct (decide (resolution = "s")); [|done].
  by intros [_ ?]%list_elem_of_filter.
Qed.

(** After a merge of two different branches the target has every id of the
    stored source list. *)
Lemma extend_pure_has_source (src tgt : list Z) (c : Z) :
  c ∈ src → c ∈ extend_pure src tgt.
Proof.
  intros Hc. destruct (extend_pure_added src tgt) as (added & -> & _ & Hmem & _).
  apply elem_of_app. destruct (decide (c ∈ tgt)); [by left|].
  right. by apply Hmem.
Qed.

(** C3, as the code has it.  For two existing branches and any answer to the
    conflict prompt, the stored target list is the target list as the
    resolution step left it, followed by the ids of the stored
    (post-resolution) source list that it did not have, each once and in
    source order.  The resolution step leaves the target list of two
    different branches as it was; when source and target are the same branch
    it works on the one list they share, which answer "s" empties, and
    nothing is appended to it. *)
Theorem merge_extends_target (source_branch target_branch resolution : string) (r : repo) :
  dict_mem source_branch (branches_file r) = true →
  dict_mem target_branch (branches_file r) = true →
  let src := commits_of source_branch (branches_file r) in
  let tgt := commits_of target_branch (branches_file r) in
  ∃ out r' added,
    kazi_merge source_branch target_branch resolution (Some r) = (Returned out, Some r') ∧
    let post := commits_of source_branch (branches_file r') in
    let base := if decide (source_branch = target_branch) then post else tgt in
    post = (if decide (resolution = "s") then filter (λ c, c ∉ tgt) src else src) ∧
    commits_of target_branch (branches_file r') = base ++ added ∧
    NoDup added ∧
    (∀ c, c ∈ added ↔ c ∈ post ∧ c ∉ base) ∧
    sublist added post ∧
    (source_branch = target_branch →
       added = [] ∧ post = if decide (resolution = "s") then [] else tgt).
Proof.
  intros Hs Ht src tgt.
  destruct (kazi_merge_lists source_branch target_branch resolution r Hs Ht)
    as (out & r' & Hm & _ & _ & Hsrc & Htgt).
  fold src tgt in Hsrc, Htgt. rewrite <- Hsrc in Htgt.
  destruct (extend_pure_added (commits_of source_branch (branches_file r')) tgt)
    as (added & Hadd & Hnd & Hmem & Hsub).
  destruct (decide (source_branch = target_branch)) as [Heq|Hne].
  - exists out, r', []. split; [done|]. cbv zeta. rewrite app_nil_r.
    split; [done|]. split; [done|]. split; [constructor|].
    split; [|split; [apply sublist_nil_l|]].
    + intros c. split; [intros H; inversion H | intros [? ?]; done].
    + intros _. split; [done|]. rewrite Hsrc. unfold src, tgt. rewrite <- Heq.
      apply (resolved_source_self resolution).
  - exists out, r', added. split; [done|]. cbv zeta.
    split; [done|]. split; [by rewrite Htgt|]. done.
Qed.

Lemma merge_extends_target_witness :
  ∃ out r' added,
    kazi_merge "feature" "main" "" (Some two_branches) = (Returned out, Some r') ∧
    let post := commits_of "feature" (branches_file r') in
    let base := if decide ("feature" = "main") then post else [1] in
    post = [2] ∧
    commits_of "main" (branches_file r') = base ++ added ∧
    NoDup added ∧
    (∀ c, c ∈ added ↔ c ∈ post ∧ c ∉ base) ∧
    sublist added post ∧
    ("feature" = "main" → added = [] ∧ post = [1]).
Proof. apply (merge_extends_target "feature" "main" "" two_branches); reflexivity. Defined.

(** C3 as stated fails for a branch merged into itself with answer "s": the
    target [main] held id 1 before the merge and holds nothing after it, so
    its list is not its former value with ids added. *)
Lemma merge_self_empties_target :
  let res := kazi_merge "main" "main" "s" (Some two_branches) in
  dict_mem "main" (branches_file two_branches) = true ∧
  commits_of "main" (branches_file two_branches) = [1] ∧
  res.1 = Returned [ConflictDetected [1]; Merged "main" "main"] ∧
  (commits_of "main" ∘ branches_file <$> res.2) = Some [] ∧
  ¬ ∃ added, (commits_of "main" ∘ branches_file <$> res.2) = Some ([1] ++ added).
Proof.
  repeat split. intros [added H]. discriminate H.
Qed.

(** C4. A merge answered "s" on a non-empty conflict list stores the source
    branch without the ids it shared with the target: none of the conflicting
    ids is left in the source list written to the branches document, and that
    list is shorter than before. *)
Theorem merge_keep_source_shrinks (source_branch target_branch : string) (r : repo) :
  dict_mem source_branch (branches_file r) = true →
  dict_mem target_branch (branches_file r) = true →
  conflicts_of source_branch target_branch (branches_file r) ≠ [] →
  let src := commits_of source_branch (branches_file r) in
  let tgt := commits_of target_branch (branches_file r) in
  ∃ out r',
    kazi_merge source_branch target_branch "s" (Some r) = (Returned out, Some r') ∧
    commits_of source_branch (branches_file r') = filter (λ c, c ∉ tgt) src ∧
    (∀ c, c ∈ conflicts_of source_branch target_branch (branches_file r) →
          c ∉ commits_of source_branch (branches_file r')) ∧
    (length (commits_of source_branch (branches_file r')) < length src)%nat.
Proof.
  intros Hs Ht Hc src tgt.
  assert (∃ out r',
    kazi_merge source_branch target_branch "s" (Some r) = (Returned out, Some r') ∧
    commits_of source_branch (branches_file r') = filter (λ c, c ∉ tgt) src)
    as (out & r' & Hm & Hsrc).
  { destruct (decide (source_branch = target_branch)) as [<-|Hne].
    - destruct (kazi_merge_self source_branch "s" r Hs) as [out Hm].
      eexists _, _. split; [exact Hm|]. simpl.
      rewrite commits_of_set_commits by done. symmetry.
      apply filter_nothing. intros x Hx Hn. by apply Hn.
    - destruct (kazi_merge_distinct source_branch target_branch "s" r Hne Hs Ht)
        as [out Hm].
      eexists _, _. split; [exact Hm|]. simpl.
      rewrite commits_of_alter_ne by done.
      by rewrite commits_of_set_commits. }
  exists out, r'. split; [done|]. split; [done|]. rewrite Hsrc. split.
  - intros c [Hin _]%list_elem_of_filter [Hout _]%list_elem_of_filter. done.
  - destruct (conflicts_of source_branch target_branch (branches_file r))
      as [|c cs] eqn:E; [done|].
    assert (c ∈ conflicts_of source_branch target_branch (branches_file r))
      as [Hin Hsrc']%list_elem_of_filter by (rewrite E; by left).
    apply (length_filter_lt _ _ c); [done|]. by intros Hn.
Qed.

Lemma merge_keep_source_shrinks_witness :
  ∃ out r',
    kazi_merge "main" "feature" "s"
      (Some (Repo [] [] [("main", Branch [1; 2] true); ("feature", Branch [2; 3] false)]))
      = (Returned out, Some r') ∧
    commits_of "main" (branches_file r') = [1] ∧
    (∀ c, c ∈ [2] → c ∉ commits_of "main" (branches_file r')) ∧
    (length (commits_of "main" (branches_file r')) < 2)%nat.
Proof.
  apply (merge_keep_source_shrinks "main" "feature"
           (Repo [] [] [("main", Branch [1; 2] true); ("feature", Branch [2; 3] false)]));
    [reflexivity | reflexivity | discriminate].
Defined.

(** C9. Two merges of the same source into the same target in a row, whatever
    is answered at the prompts: the second one brings no id into the target
    that the first had not left there, and for two different branches it
    leaves the target list exactly as the first merge stored it. *)
Theorem merge_twice_adds_nothing
    (source_branch target_branch resolution1 resolution2 : string) (r : repo) :
  dict_mem source_branch (branches_file r) = true →
  dict_mem target_branch (branches_file r) = true →
  ∃ out1 r1 out2 r2,
    kazi_merge source_branch target_branch resolution1 (Some r) = (Returned out1, Some r1) ∧
    kazi_merge source_branch target_branch resolution2 (Some r1) = (Returned out2, Some r2) ∧
    (∀ c, c ∈ commits_of target_branch (branches_file r2) →
          c ∈ commits_of target_branch (branches_file r1)) ∧
    (source_branch ≠ target_branch →
       commits_of target_branch (branches_file r2) =
       commits_of target_branch (branches_file r1)).
Proof.
  intros Hs Ht.
  destruct (kazi_merge_lists source_branch target_branch resolution1 r Hs Ht)
    as (out1 & r1 & Hm1 & Hs1 & Ht1 & Hsrc1 & Htgt1).
  destruct (kazi_merge_lists source_branch target_branch resolution2 r1 Hs1 Ht1)
    as (out2 & r2 & Hm2 & _ & _ & _ & Htgt2).
  exists out1, r1, out2, r2. split; [done|]. split; [done|].
  rewrite Htgt2. destruct (decide (source_branch = target_branch)) as [Heq|Hne].
  - split; [|done]. intros c Hc%resolved_source_elem. by rewrite <- Heq.
  - assert (extend_pure
              (resolved_source resolution2 (commits_of source_branch (branches_file r1))
                 (commits_of target_branch (branches_file r1)))
              (commits_of target_branch (branches_file r1))
            = commits_of target_branch (branches_file r1)) as ->; [|done].
    apply extend_pure_covered. intros c Hc%resolved_source_elem.
    rewrite Htgt1. rewrite Hsrc1 in Hc. by apply extend_pure_has_source.
Qed.

Lemma merge_twice_adds_nothing_witness :
  ∃ out1 r1 out2 r2,
    kazi_merge "feature" "main" "" (Some two_branches) = (Returned out1, Some r1) ∧
    kazi_merge "feature" "main" "s" (Some r1) = (Returned out2, Some r2) ∧
    (∀ c, c ∈ commits_of "main" (branches_file r2) →
          c ∈ commits_of "main" (branches_file r1)) ∧
    ("feature" ≠ "main" →
       commits_of "main" (branches_file r2) = commits_of "main" (branches_file r1)).
Proof. apply (merge_twice_adds_nothing "feature" "main" "" "s" two_branches); reflexivity. Defined.

(** ** What every method keeps *)

Section Shape.
Variables source_branch target_branch : string.

Lemma resolve_shape resolution conflicts : ∀ out (branches : dict) out' branches',
  resolve source_branch resolution conflicts out branches = inr (out', branches') →
  keys branches' = keys branches ∧ active_names branches' = active_names branches.
Proof.
  induction conflicts as [|c cs IH]; intros out branches out' branches'; simpl.
  - by intros [= _ ->].
  - destruct (decide (resolution = "s")).
    + destruct (py_remove c (commits_of source_branch branches)) as [l|]; [|done].
      intros [-> ->]%IH. by rewrite keys_alter, active_names_alter.
    + destruct (decide (resolution = "t")); apply IH.
Qed.

Lemma extend_from_shape fuel : ∀ i (branches branches' : dict),
  extend_from source_branch target_branch fuel i branches = Some branches' →
  keys branches' = keys branches ∧ active_names branches' = active_names branches.
Proof.
  induction fuel as [|fuel IH]; intros i branches branches';
    rewrite extend_from_eq;
    destruct (commits_of source_branch branches !! i) as [c|];
    try (by intros [= ->]).
  intros [-> ->]%IH. destruct (decide (c ∈ _)); [done|].
  by rewrite keys_alter, active_names_alter.
Qed.

(** A merge writes nothing but the [commits] lists of the branches document. *)
Lemma kazi_merge_shape resolution r :
  ∃ r', (kazi_merge source_branch target_branch resolution (Some r)).2 = Some r' ∧
        staging_file r' = staging_file r ∧
        commits_file r' = commits_file r ∧
        keys (branches_file r') = keys (branches_file r) ∧
        active_names (branches_file r') = active_names (branches_file r).
Proof.
  unfold kazi_merge.
  destruct (negb (dict_mem source_branch (branches_file r))
            || negb (dict_mem target_branch (branches_file r))); [by exists r|].
  destruct (match conflicts_of source_branch target_branch (branches_file r) with
            | [] => inr ([], branches_file r)
            | _ :: _ => _
            end) as [x|[out b1]] eqn:Hres; [by exists r|].
  assert (keys b1 = keys (branches_file r) ∧
          active_names b1 = active_names (branches_file r)) as [Hk1 Ha1].
  { destruct (conflicts_of source_branch target_branch (branches_file r)).
    - by injection Hres as _ <-.
    - by apply resolve_shape in Hres. }
  destruct (extend_from source_branch target_branch _ 0 b1) as [b2|] eqn:Hext;
    [|by exists r].
  apply extend_from_shape in Hext as [Hk2 Ha2].
  eexists. split; [done|]. simpl. by rewrite Hk2, Ha2.
Qed.
End Shape.

Section RunProps.
Variable path_exists : string → bool.

Lemma active_names_app (d1 d2 : dict) :
  active_names (d1 ++ d2) = active_names d1 ++ active_names d2.
Proof. unfold active_names, keys. by rewrite filter_app, fmap_app. Qed.

Lemma active_names_snoc_inactive (d : dict) k l :
  active_names (d ++ [(k, Branch l false)]) = active_names d.
Proof.
  rewrite active_names_app, active_names_cons. simpl. by rewrite app_nil_r.
Qed.

(** Every method leaves a repository where there was one, keeps the data
    model's invariants, and, [checkout] apart, keeps the set of active
    branches. *)
Lemma run_keeps (o : op) (r : repo) :
  ∃ r', (run path_exists o (Some r)).2 = Some r' ∧
        (is_checkout o = false →
           active_names (branches_file r') = active_names (branches_file r)) ∧
        (repo_inv r → repo_inv r').
Proof.
  destruct o as [|p|now msg| |n|n|s t res|a b]; simpl.
  - by exists r.
  - unfold kazi_add. destruct (negb (path_exists p)); [by exists r|].
    destruct (decide (p ∈ staging_file r)) as [Hp|Hp]; [by exists r|].
    eexists. split; [done|]. split; [done|]. simpl.
    intros (Hnd & Hok & Hone). split; [|done].
    apply NoDup_app. split; [done|]. split; [|apply NoDup_singleton].
    intros x Hx Hx'. by apply list_elem_of_singleton in Hx' as ->.
  - unfold kazi_commit. destruct (staging_file r) as [|f fs] eqn:Hst; [by exists r|].
    destruct (first_active (branches_file r)) as [a|]; [|by exists r].
    eexists. split; [done|]. simpl. rewrite active_names_alter by done.
    split; [done|]. unfold repo_inv, dict_ok, one_active. simpl.
    rewrite keys_alter, active_names_alter by done.
    intros (_ & Hok & Hone). split; [constructor | done].
  - unfold kazi_commit_history. destruct (commits_file r); by exists r.
  - unfold kazi_create_branch.
    destruct (dict_mem n (branches_file r)) eqn:Hn; [by exists r|].
    unfold dict_set. rewrite Hn. eexists. split; [done|]. simpl.
    rewrite active_names_snoc_inactive.
    split; [done|]. unfold repo_inv, dict_ok, one_active, keys. simpl.
    rewrite fmap_app, active_names_snoc_inactive.
    intros (Hnd & Hok & Hone). split; [done|]. split; [|done].
    apply NoDup_app. split; [done|]. split; [|apply NoDup_singleton].
    intros x Hx Hx'. apply list_elem_of_singleton in Hx' as ->.
    apply dict_mem_keys in Hx. simpl in Hx. congruence.
  - unfold kazi_checkout. destruct (dict_mem n (branches_file r)) eqn:Hn; simpl;
      [|by exists r].
    eexists. split; [done|]. split; [done|]. simpl.
    unfold repo_inv, dict_ok, one_active. simpl.
    rewrite keys_alter, deactivate_all_keys.
    intros (Hnd & Hok & _). split; [done|]. split; [done|].
    rewrite active_names_activate; [done| |].
    + rewrite deactivate_all_map by done. apply active_names_cleared.
    + rewrite deactivate_all_keys. by apply dict_mem_keys.
  - destruct (kazi_merge_shape s t res r) as (r' & Hm & Hs & Hc & Hk & Ha).
    exists r'. split; [done|]. split; [done|].
    unfold repo_inv, dict_ok, one_active. by rewrite Hs, Hk, Ha.
  - unfold kazi_diff.
    destruct (negb (dict_mem a (branches_file r)) || negb (dict_mem b (branches_file r)));
      by exists r.
Qed.

Lemma run_all_cons o os (d : disk) :
  run_all path_exists (o :: os) d = run_all path_exists os (run path_exists o d).2.
Proof. reflexivity. Qed.

Lemma run_none_inv (o : op) : disk_inv (run path_exists o None).2.
Proof.
  destruct o; simpl; try done.
  split; [constructor|]. split; [|done].
  unfold dict_ok, keys. simpl. apply NoDup_singleton.
Qed.

Lemma run_all_inv os : ∀ d, disk_inv d → disk_inv (run_all path_exists os d).
Proof.
  induction os as [|o os IH]; intros d Hd; [done|].
  rewrite run_all_cons. apply IH. destruct d as [r|].
  - destruct (run_keeps o r) as (r' & -> & _ & Hinv). by apply Hinv.
  - apply run_none_inv.
Qed.

(** The data model's invariants hold in every state the methods reach. *)
Lemma reachable_inv r : reachable path_exists (Some r) → repo_inv r.
Proof.
  intros [os Hos]. change (disk_inv (Some r)). rewrite Hos. by apply run_all_inv.
Qed.
End RunProps.

(** C5. In a repository reached through the methods, after any run of
    checkouts of existing branch names exactly one branch is active (the one
    named last, when the run is not empty), and the staging set and commit
    log are as before.  A single checkout clears every flag and sets the flag
    of the branch named; every other method leaves the active names as they
    were. *)
Theorem checkout_one_active (path_exists : string → bool) (r : repo) (names : list string) :
  reachable path_exists (Some r) →
  Forall (λ k, dict_mem k (branches_file r) = true) names →
  (∃ r',
     checkout_all names (Some r) = Some r' ∧
     one_active (branches_file r') ∧
     (∀ k, last names = Some k → active_names (branches_file r') = [k]) ∧
     keys (branches_file r') = keys (branches_file r) ∧
     staging_file r' = staging_file r ∧
     commits_file r' = commits_file r) ∧
  (∀ k, dict_mem k (branches_file r) = true →
     kazi_checkout k (Some r) =
       (Returned [CheckedOut k],
        Some (Repo (staging_file r) (commits_file r)
                (dict_alter (set_active true) k (clear_flag <$> branches_file r))))) ∧
  (∀ o, is_checkout o = false →
     ∃ r', (run path_exists o (Some r)).2 = Some r' ∧
           active_names (branches_file r') = active_names (branches_file r)).
Proof.
  intros (Hnd & Hok & Hone)%reachable_inv Hall. split; [|split].
  - destruct (checkout_all_existing names r Hok Hall) as (r' & Hr' & Ha & Hk & Hs & Hc).
    exists r'. split; [done|]. split; [|split; [|done]].
    + unfold one_active. rewrite Ha. by destruct (last names).
    + intros k Hlast. by rewrite Ha, Hlast.
  - intros k Hk. unfold kazi_checkout. rewrite Hk. simpl.
    by rewrite deactivate_all_map.
  - intros o Ho. destruct (run_keeps path_exists o r) as (r' & Hr' & Ha & _).
    exists r'. split; [done | by apply Ha].
Qed.

Lemma checkout_one_active_witness :
  (∃ r',
     checkout_all ["main"; "main"] (Some fresh) = Some r' ∧
     one_active (branches_file r') ∧
     (∀ k, last ["main"; "main"] = Some k → active_names (branches_file r') = [k]) ∧
     keys (branches_file r') = keys (branches_file fresh) ∧
     staging_file r' = staging_file fresh ∧
     commits_file r' = commits_file fresh) ∧
  (∀ k, dict_mem k (branches_file fresh) = true →
     kazi_checkout k (Some fresh) =
       (Returned [CheckedOut k],
        Some (Repo (staging_file fresh) (commits_file fresh)
                (dict_alter (set_active true) k (clear_flag <$> branches_file fresh))))) ∧
  (∀ o, is_checkout o = false →
     ∃ r', (run all_exist o (Some fresh)).2 = Some r' ∧
           active_names (branches_file r') = active_names (branches_file fresh)).
Proof.
  apply (checkout_one_active all_exist fresh ["main"; "main"]).
  - exists [Init]. reflexivity.
  - repeat constructor.
Defined.

(** C6. In a repository reached through the methods, any run of adds of
    existing paths, repeats included, leaves a staging set without a repeated
    path that holds every path given, next to what was staged before and
    nothing else; an add of a path already staged writes nothing and prints
    no refusal. *)
Theorem add_stages_once (path_exists : string → bool) (r : repo) (paths : list string) :
  reachable path_exists (Some r) →
  exists_all path_exists paths →
  (∃ r',
     add_all path_exists paths (Some r) = Some r' ∧
     NoDup (staging_file r') ∧
     (∀ p, p ∈ staging_file r' ↔ p ∈ staging_file r ∨ p ∈ paths) ∧
     commits_file r' = commits_file r ∧
     branches_file r' = branches_file r) ∧
  (∀ p, path_exists p = true → p ∈ staging_file r →
     kazi_add path_exists p (Some r) = (Returned [Adding p], Some r)).
Proof.
  intros (Hnd & _ & _)%reachable_inv Hex. split.
  - by apply add_all_staging.
  - intros p Hp Hin. by apply kazi_add_staged.
Qed.

Lemma add_stages_once_witness :
  (∃ r',
     add_all all_exist ["x.txt"; "y.txt"; "x.txt"] (Some fresh) = Some r' ∧
     NoDup (staging_file r') ∧
     (∀ p, p ∈ staging_file r' ↔ p ∈ staging_file fresh ∨ p ∈ ["x.txt"; "y.txt"; "x.txt"]) ∧
     commits_file r' = commits_file fresh ∧
     branches_file r' = branches_file fresh) ∧
  (∀ p, all_exist p = true → p ∈ staging_file fresh →
     kazi_add all_exist p (Some fresh) = (Returned [Adding p], Some fresh)).
Proof.
  apply (add_stages_once all_exist fresh ["x.txt"; "y.txt"; "x.txt"]).
  - exists [Init]. reflexivity.
  - repeat constructor.
Defined.

(** X22. A merge returns, whatever is on disk, whatever the two names and
    whatever is answered: no [remove] of the resolution loop fails, and the
    walk of [extend] ends within the bound the model gives it. *)
Lemma kazi_merge_returns (source_branch target_branch resolution : string) (d : disk) :
  ∃ out, (kazi_merge source_branch target_branch resolution d).1 = Returned out.
Proof.
  destruct d as [r|]; [|by eexists].
  destruct (dict_mem source_branch (branches_file r)) eqn:Hs.
  - destruct (dict_mem target_branch (branches_file r)) eqn:Ht.
    + destruct (kazi_merge_lists source_branch target_branch resolution r Hs Ht)
        as (out & r' & -> & _). by exists out.
    + unfold kazi_merge. rewrite Hs, Ht. by eexists.
  - unfold kazi_merge. rewrite Hs. by eexists.
Qed.

(** * Further properties of the methods *)

(** ** Calls that give up *)

Lemma resolve_prints (source_branch resolution : string) (conflicts : list Z) :
  ∀ out (branches : dict) out' branches',
    resolve source_branch resolution conflicts out branches = inr (out', branches') →
    ∀ m, m ∈ out' → m ∈ out ∨ ∃ c, m = Skipping c.
Proof.
  induction conflicts as [|c cs IH]; intros out branches out' branches'; simpl.
  - intros [= <- _] m Hm. by left.
  - destruct (decide (resolution = "s")).
    + destruct (py_remove c (commits_of source_branch branches)) as [l|]; [|done].
      apply IH.
    + destruct (decide (resolution = "t")); [apply IH|].
      intros Hres m Hm. destruct (IH _ _ _ _ Hres m Hm) as [Hin|?]; [|by right].
      apply elem_of_app in Hin as [?|Hin]; [by left|].
      apply list_elem_of_singleton in Hin. right. by exists c.
Qed.

(** A merge that gets past its checks prints no refusal. *)
Lemma kazi_merge_prints (source_branch target_branch resolution : string) (r : repo) :
  dict_mem source_branch (branches_file r) = true →
  dict_mem target_branch (branches_file r) = true →
  ∀ out d', kazi_merge source_branch target_branch resolution (Some r) = (Returned out, d') →
  ∀ m, m ∈ out → is_refusal m = false.
Proof.
  intros Hs Ht out d'. unfold kazi_merge. rewrite Hs, Ht. cbn [negb orb].
  destruct (match conflicts_of source_branch target_branch (branches_file r) with
            | [] => inr ([], branches_file r)
            | _ :: _ => _
            end) as [x|[out1 b1]] eqn:Hres; [done|].
  destruct (extend_from source_branch target_branch _ 0 b1) as [b2|]; [|done].
  intros [= <- _] m [Hm|Hm]%elem_of_app.
  - destruct (conflicts_of source_branch target_branch (branches_file r)) as [|c cs].
    + injection Hres as <- _. inversion Hm.
    + destruct (resolve_prints _ _ _ _ _ _ _ Hres m Hm) as [Hin|[c' ->]]; [|done].
      by apply list_elem_of_singleton in Hin as ->.
  - by apply list_elem_of_singleton in Hm as ->.
Qed.

(** X1. Whatever the method and whatever is on disk, a call that prints one
    of the refusal lines ("Not a repository...", "File ... does not exist.",
    "No files to commit.", "... already exists.", "... does not exist.",
    "... already initialized.") has written nothing. *)
Theorem refused_call_writes_nothing
    (path_exists : string → bool) (o : op) (d d' : disk) (out : list printed) :
  run path_exists o d = (Returned out, d') →
  (∃ m, m ∈ out ∧ is_refusal m = true) →
  d' = d.
Proof.
  intros Hrun (m & Hm & Href).
  assert (∀ l : list printed, m ∈ l → Forall (λ x, is_refusal x = false) l → False)
    as Hno.
  { intros l Hl Hall. rewrite Forall_forall in Hall. specialize (Hall m Hl). congruence. }
  destruct d as [r|].
  2:{ destruct o; simpl in Hrun; try (by injection Hrun as _ <-).
      injection Hrun as <- _. exfalso. apply (Hno _ Hm). by repeat constructor. }
  destruct o as [|p|now msg| |n|n|s t res|a b]; simpl in Hrun.
  - by injection Hrun as _ <-.
  - unfold kazi_add in Hrun. destruct (negb (path_exists p)); [by injection Hrun as _ <-|].
    destruct (decide (p ∈ staging_file r)); [by injection Hrun as _ <-|].
    injection Hrun as <- _. exfalso. apply (Hno _ Hm). by repeat constructor.
  - unfold kazi_commit in Hrun. destruct (staging_file r); [by injection Hrun as _ <-|].
    destruct (first_active (branches_file r)); [|done].
    injection Hrun as <- _. exfalso. apply (Hno _ Hm). by repeat constructor.
  - unfold kazi_commit_history in Hrun.
    destruct (commits_file r); by injection Hrun as _ <-.
  - unfold kazi_create_branch in Hrun.
    destruct (dict_mem n (branches_file r)); [by injection Hrun as _ <-|].
    injection Hrun as <- _. exfalso. apply (Hno _ Hm). by repeat constructor.
  - unfold kazi_checkout in Hrun.
    destruct (dict_mem n (branches_file r)); simpl in Hrun; [|by injection Hrun as _ <-].
    injection Hrun as <- _. exfalso. apply (Hno _ Hm). by repeat constructor.
  - change (kazi_merge s t res (Some r) = (Returned out, d')) in Hrun.
    destruct (dict_mem s (branches_file r)) eqn:Hs.
    + destruct (dict_mem t (branches_file r)) eqn:Ht.
      * pose proof (kazi_merge_prints s t res r Hs Ht out d' Hrun m Hm). congruence.
      * unfold kazi_merge in Hrun. rewrite Hs, Ht in Hrun. by injection Hrun as _ <-.
    + unfold kazi_merge in Hrun. rewrite Hs in Hrun. by injection Hrun as _ <-.
  - unfold kazi_diff in Hrun.
    destruct (negb (dict_mem a (branches_file r)) || negb (dict_mem b (branches_file r)));
      by injection Hrun as _ <-.
Qed.

Lemma refused_call_writes_nothing_witness : Some two_branches = Some two_branches.
Proof.
  apply (refused_call_writes_nothing all_exist (Checkout "release")
           (Some two_branches) (Some two_branches) [BranchNotFound "release"]).
  - reflexivity.
  - exists (BranchNotFound "release"). split; [by left | reflexivity].
Defined.



(** X3. [kazi_init] never overwrites: on an existing repository it leaves the
    three documents as they are, and a second [kazi_init] in a row reports
    "already initialized" and changes nothing. *)
Theorem init_keeps_existing (d : disk) :
  (∀ r, d = Some r → kazi_init d = (Returned [Initializing; AlreadyInitialized], Some r)) ∧
  (d = None → kazi_init d = (Returned [Initializing; Initialized], Some fresh)) ∧
  kazi_init (kazi_init d).2 =
    (Returned [Initializing; AlreadyInitialized], (kazi_init d).2).
Proof.
  split; [by intros r ->|]. split; [by intros ->|]. by destruct d.
Qed.

(** X4. Adding the same path twice in a row leaves the disk as adding it
    once does, whether the path exists or not and whatever was staged. *)
Theorem add_twice_same (path_exists : string → bool) (p : string) (d : disk) :
  (kazi_add path_exists p (kazi_add path_exists p d).2).2 = (kazi_add path_exists p d).2.
Proof.
  destruct d as [r|]; [|done].
  destruct (path_exists p) eqn:Hp.
  - destruct (decide (p ∈ staging_file r)) as [Hin|Hin].
    + rewrite (kazi_add_staged path_exists p r) by done. cbn [snd].
      by rewrite kazi_add_staged.
    + rewrite (kazi_add_new path_exists p r) by done. cbn [snd].
      rewrite kazi_add_staged; [done|done|]. simpl. apply elem_of_app. right. by left.
  - assert (kazi_add path_exists p (Some r) = (Returned [FileNotFound p], Some r)) as Hadd
      by (unfold kazi_add; by rewrite Hp).
    rewrite Hadd. cbn [snd]. by rewrite Hadd.
Qed.

(** ** kazi_create_branch *)

Lemma dict_get_snoc (k n : string) (v : branch) (d : dict) :
  dict_get k (d ++ [(n, v)]) =
  match dict_get k d with
  | Some x => Some x
  | None => if decide (k = n) then Some v else None
  end.
Proof.
  induction d as [|[k' v'] d IH]; simpl; [done|].
  by destruct (decide (k = k')).
Qed.

Lemma dict_mem_false (k : string) (d : dict) :
  dict_mem k d = false → dict_get k d = None.
Proof.
  unfold dict_mem. intros H%bool_decide_eq_false.
  destruct (dict_get k d); [|done]. exfalso. apply H. by eexists.
Qed.

(** X5. Creating a branch under a name not yet in the table puts it last,
    with no commits and not active; every other branch, the active names,
    the staging set and the commit log stay as they were. *)
Theorem create_branch_inserts (branch_name : string) (r : repo) :
  dict_mem branch_name (branches_file r) = false →
  ∃ r',
    kazi_create_branch branch_name (Some r) = (Returned [BranchCreated branch_name], Some r') ∧
    dict_get branch_name (branches_file r') = Some (Branch [] false) ∧
    (∀ k, k ≠ branch_name → dict_get k (branches_file r') = dict_get k (branches_file r)) ∧
    keys (branches_file r') = keys (branches_file r) ++ [branch_name] ∧
    active_names (branches_file r') = active_names (branches_file r) ∧
    staging_file r' = staging_file r ∧
    commits_file r' = commits_file r.
Proof.
  intros Hn. unfold kazi_create_branch, dict_set. rewrite Hn.
  eexists. split; [done|]. simpl. apply dict_mem_false in Hn.
  split; [|split; [|split; [|split]]]; try done.
  - by rewrite dict_get_snoc, Hn, decide_True.
  - intros k Hk. rewrite dict_get_snoc, decide_False by done.
    by destruct (dict_get k (branches_file r)).
  - unfold keys. by rewrite fmap_app.
  - apply active_names_snoc_inactive.
Qed.

Lemma create_branch_inserts_witness :
  ∃ r',
    kazi_create_branch "feature" (Some fresh) = (Returned [BranchCreated "feature"], Some r') ∧
    dict_get "feature" (branches_file r') = Some (Branch [] false) ∧
    (∀ k, k ≠ "feature" → dict_get k (branches_file r') = dict_get k (branches_file fresh)) ∧
    keys (branches_file r') = keys (branches_file fresh) ++ ["feature"] ∧
    active_names (branches_file r') = active_names (branches_file fresh) ∧
    staging_file r' = staging_file fresh ∧
    commits_file r' = commits_file fresh.
Proof. apply (create_branch_inserts "feature" fresh). reflexivity. Defined.

(** X6. A branch name is taken once: whatever the table held, creating the
    same branch again right away is refused with "already exists" and the
    existing entry, commits and flag included, is not reset. *)
Theorem create_branch_twice (branch_name : string) (r : repo) :
  kazi_create_branch branch_name (kazi_create_branch branch_name (Some r)).2 =
    (Returned [BranchAlreadyExists branch_name],
     (kazi_create_branch branch_name (Some r)).2).
Proof.
  destruct (dict_mem branch_name (branches_file r)) eqn:Hn.
  - assert (kazi_create_branch branch_name (Some r) =
            (Returned [BranchAlreadyExists branch_name], Some r)) as Hc
      by (unfold kazi_create_branch; by rewrite Hn).
    rewrite Hc. cbn [snd]. by rewrite Hc.
  - unfold kazi_create_branch at 2 3. unfold dict_set. rewrite Hn. cbn [snd].
    unfold kazi_create_branch. cbn [branches_file].
    assert (dict_mem branch_name (branches_file r ++ [(branch_name, Branch [] false)]) = true)
      as ->; [|done].
    apply dict_mem_keys. unfold keys. rewrite fmap_app. apply elem_of_app. right. by left.
Qed.

(** ** kazi_checkout, further *)

Lemma commits_of_alter_flag (f : branch → branch) (k k' : string) (d : dict) :
  (∀ v, commits (f v) = commits v) →
  commits_of k' (dict_alter f k d) = commits_of k' d.
Proof.
  intros Hf. destruct (decide (k = k')) as [<-|Hne].
  - unfold commits_of. rewrite dict_get_alter.
    destruct (dict_get k d); simpl; [apply Hf | done].
  - by apply commits_of_alter_ne.
Qed.

Lemma foldl_alter_commits (f : branch → branch) (k : string) (ks : list string) :
  (∀ v, commits (f v) = commits v) →
  ∀ d : dict,
    commits_of k (foldl (λ bs name, dict_alter f name bs) d ks) = commits_of k d.
Proof.
  intros Hf. induction ks as [|k' ks IH]; intros d; simpl; [done|].
  by rewrite IH, commits_of_alter_flag.
Qed.

Lemma checkout_keeps_lists (branch_name : string) (r : repo) :
  ∃ r',
    (kazi_checkout branch_name (Some r)).2 = Some r' ∧
    ∀ k, commits_of k (branches_file r') = commits_of k (branches_file r).
Proof.
  unfold kazi_checkout. destruct (dict_mem branch_name (branches_file r)); simpl.
  - eexists. split; [done|]. simpl.
    intros k. rewrite commits_of_alter_flag by done.
    by apply foldl_alter_commits.
  - by exists r.
Qed.

(** X7. A checkout writes flags only: whatever the table holds, no branch
    gains or loses a commit id or a name by it. *)
Theorem checkout_keeps_commit_lists (branch_name : string) (r : repo) :
  ∃ r',
    (kazi_checkout branch_name (Some r)).2 = Some r' ∧
    keys (branches_file r') = keys (branches_file r) ∧
    ∀ k, commits_of k (branches_file r') = commits_of k (branches_file r).
Proof.
  destruct (checkout_keeps_lists branch_name r) as (r' & Hr' & Hl).
  exists r'. split; [done|]. split; [|done].
  revert Hr'. unfold kazi_checkout.
  destruct (dict_mem branch_name (branches_file r)); simpl; intros [= <-]; [|done].
  simpl. by rewrite keys_alter, deactivate_all_keys.
Qed.

Lemma clear_flag_alter (f : branch → branch) (k : string) (d : dict) :
  (∀ v, commits (f v) = commits v) →
  clear_flag <$> dict_alter f k d = clear_flag <$> d.
Proof.
  intros Hf. induction d as [|[k' v] d IH]; csimpl; [done|].
  destruct (decide (k = k')); csimpl; [|by rewrite IH].
  unfold clear_flag, set_active. simpl. by rewrite Hf.
Qed.

Lemma clear_flag_twice (d : dict) : clear_flag <$> (clear_flag <$> d) = clear_flag <$> d.
Proof.
  rewrite <- list_fmap_compose. apply list_fmap_ext. by intros i [k [l a]] _.
Qed.

(** X8. Of two checkouts in a row only the second counts: checking out [a]
    and then [b] leaves the disk exactly as checking out [b] alone; in
    particular a repeated checkout changes nothing more. *)
Theorem checkout_last_wins (a b : string) (r : repo) :
  dict_ok (branches_file r) →
  dict_mem a (branches_file r) = true →
  dict_mem b (branches_file r) = true →
  (kazi_checkout b (kazi_checkout a (Some r)).2).2 = (kazi_checkout b (Some r)).2.
Proof.
  intros Hok Ha Hb.
  destruct (kazi_checkout_existing a r Hok Ha) as (r1 & Hr1 & Hb1 & _ & Hk1 & Hs1 & Hc1).
  destruct (kazi_checkout_existing b r Hok Hb) as (r2 & Hr2 & Hb2 & _ & _ & Hs2 & Hc2).
  rewrite Hr1, Hr2. cbn [snd].
  destruct (kazi_checkout_existing b r1) as (r3 & Hr3 & Hb3 & _ & _ & Hs3 & Hc3).
  { unfold dict_ok. by rewrite Hk1. }
  { apply dict_mem_keys. rewrite Hk1. by apply dict_mem_keys. }
  rewrite Hr3. cbn [snd]. f_equal.
  destruct r2 as [s2 c2 b2], r3 as [s3 c3 b3]. simpl in *.
  rewrite Hs3, Hc3, Hs1, Hc1, Hs2, Hc2. f_equal.
  rewrite Hb3, Hb2, Hb1. by rewrite clear_flag_alter, clear_flag_twice.
Qed.

Lemma checkout_last_wins_witness :
  (kazi_checkout "main" (kazi_checkout "feature" (Some two_branches)).2).2 =
  (kazi_checkout "main" (Some two_branches)).2.
Proof.
  apply (checkout_last_wins "feature" "main" two_branches).
  - unfold dict_ok. apply (bool_decide_unpack _). by vm_compute.
  - reflexivity.
  - reflexivity.
Defined.

(** ** kazi_commit, further *)

(** X9. A commit that went through leaves nothing staged: a second commit
    right after it, under any message, is refused with "No files to commit."
    and writes nothing. *)
Theorem commit_twice_refused (now msg now' msg' : string) (d : disk) (i : Z) (r' : repo) :
  kazi_commit now msg d = (Returned [Committed i msg], Some r') →
  kazi_commit now' msg' (Some r') = (Returned [NothingToCommit], Some r').
Proof.
  destruct d as [r|]; [|done]. unfold kazi_commit at 1.
  destruct (staging_file r); [done|].
  destruct (first_active (branches_file r)); [|done].
  by intros [= _ <-].
Qed.

Lemma commit_twice_refused_witness :
  kazi_commit "t1" "again"
    (Some (Repo [] [Commit 1 "first" ["x.txt"] "t0"] [("main", Branch [1] true)])) =
  (Returned [NothingToCommit],
   Some (Repo [] [Commit 1 "first" ["x.txt"] "t0"] [("main", Branch [1] true)])).
Proof.
  apply (commit_twice_refused "t0" "first" "t1" "again" (Some staged_once) 1).
  reflexivity.
Defined.

(** X10. Checkout then commit: with files staged, a commit right after the
    checkout of an existing branch gets the next id and records it on that
    branch and on no other, and that branch is the one active afterwards. *)
Theorem checkout_then_commit (now msg branch_name : string) (r : repo) :
  dict_ok (branches_file r) →
  dict_mem branch_name (branches_file r) = true →
  staging_file r ≠ [] →
  ∃ r1 r2,
    kazi_checkout branch_name (Some r) = (Returned [CheckedOut branch_name], Some r1) ∧
    kazi_commit now msg (Some r1) = (Returned [Committed (next_id r) msg], Some r2) ∧
    commits_of branch_name (branches_file r2) =
      commits_of branch_name (branches_file r) ++ [next_id r] ∧
    (∀ k, k ≠ branch_name →
       commits_of k (branches_file r2) = commits_of k (branches_file r)) ∧
    active_names (branches_file r2) = [branch_name].
Proof.
  intros Hok Hn Hst.
  destruct (kazi_checkout_existing branch_name r Hok Hn)
    as (r1 & Hr1 & Hb1 & Ha1 & Hk1 & Hs1 & Hc1).
  destruct (checkout_keeps_lists branch_name r) as (r1' & Hr1' & Hl1).
  rewrite Hr1 in Hr1'. injection Hr1' as <-.
  exists r1, (committed_to now msg branch_name r1). split; [done|].
  assert (next_id r1 = next_id r) as Hid by (unfold next_id; by rewrite Hc1).
  split.
  { rewrite <- Hid. apply kazi_commit_first_active; [by rewrite Hs1|].
    by rewrite first_active_head, Ha1. }
  assert (dict_mem branch_name (branches_file r1) = true) as Hn1.
  { apply dict_mem_keys. rewrite Hk1. by apply dict_mem_keys. }
  simpl. split; [|split].
  - rewrite commits_of_alter by done. destruct (dict_mem_get _ _ Hn1) as [v Hv].
    rewrite Hv. simpl. rewrite Hid, <- Hl1. unfold commits_of. by rewrite Hv.
  - intros k Hk. by rewrite commits_of_alter_ne, Hl1.
  - by rewrite active_names_alter.
Qed.

Lemma checkout_then_commit_witness :
  ∃ r1 r2,
    kazi_checkout "main" (Some staged_once) = (Returned [CheckedOut "main"], Some r1) ∧
    kazi_commit "t0" "first" (Some r1) = (Returned [Committed 1 "first"], Some r2) ∧
    commits_of "main" (branches_file r2) = [1] ∧
    (∀ k, k ≠ "main" →
       commits_of k (branches_file r2) = commits_of k (branches_file staged_once)) ∧
    active_names (branches_file r2) = ["main"].
Proof.
  apply (checkout_then_commit "t0" "first" "main" staged_once).
  - unfold dict_ok. apply (bool_decide_unpack _). by vm_compute.
  - reflexivity.
  - discriminate.
Defined.

(** X11. Add then commit: starting with nothing staged and a branch active,
    a run of adds of existing paths followed by a commit records a commit
    whose files are the paths given, each once. *)
Theorem add_then_commit
    (path_exists : string → bool) (now msg : string) (paths : list string) (r : repo) :
  staging_file r = [] →
  is_Some (first_active (branches_file r)) →
  exists_all path_exists paths →
  paths ≠ [] →
  ∃ r1 r2 c,
    add_all path_exists paths (Some r) = Some r1 ∧
    kazi_commit now msg (Some r1) = (Returned [Committed (next_id r) msg], Some r2) ∧
    last (commits_file r2) = Some c ∧
    id c = next_id r ∧
    NoDup (files c) ∧
    (∀ p, p ∈ files c ↔ p ∈ paths).
Proof.
  intros Hst [a Ha] Hex Hne.
  destruct (add_all_staging path_exists paths r Hex) as (r1 & Hr1 & Hnd & Hmem & Hc & Hb).
  { rewrite Hst. constructor. }
  assert (next_id r1 = next_id r) as Hid by (unfold next_id; by rewrite Hc).
  exists r1, (committed_to now msg a r1), (Commit (next_id r) msg (staging_file r1) now).
  split; [done|]. split.
  { rewrite <- Hid. apply kazi_commit_first_active; [|by rewrite Hb].
    destruct paths as [|p ps]; [done|]. intros Hnil.
    assert (p ∈ staging_file r1) as Hp by (apply Hmem; right; by left).
    rewrite Hnil in Hp. inversion Hp. }
  simpl. rewrite Hid, last_snoc. split; [done|]. split; [done|]. split; [done|].
  intros p. rewrite Hmem, Hst. split; [intros [H|H]; [inversion H | done] | by right].
Qed.

Lemma add_then_commit_witness :
  ∃ r1 r2 c,
    add_all all_exist ["x.txt"; "y.txt"; "x.txt"] (Some fresh) = Some r1 ∧
    kazi_commit "t0" "first" (Some r1) = (Returned [Committed 1 "first"], Some r2) ∧
    last (commits_file r2) = Some c ∧
    id c = 1 ∧
    NoDup (files c) ∧
    (∀ p, p ∈ files c ↔ p ∈ ["x.txt"; "y.txt"; "x.txt"]).
Proof.
  apply (add_then_commit all_exist "t0" "first" ["x.txt"; "y.txt"; "x.txt"] fresh).
  - reflexivity.
  - by eexists.
  - repeat constructor.
  - discriminate.
Defined.

(** ** Invariants of the history *)

Section HistoryInv.
Variable path_exists : string → bool.

(** Induction over the states the methods reach. *)
Lemma reachable_ind (P : repo → Prop) :
  P fresh →
  (∀ o r r', P r → (run path_exists o (Some r)).2 = Some r' → P r') →
  ∀ r, reachable path_exists (Some r) → P r.
Proof.
  intros Hfresh Hstep r [ops Hops].
  assert (∀ os (d : disk),
            match d with None => True | Some r => P r end →
            match run_all path_exists os d with None => True | Some r => P r end) as Hall.
  { clear r ops Hops. intros os. induction os as [|o os IH]; intros d Hd; [exact Hd|].
    rewrite run_all_cons. apply IH. destruct d as [r|].
    - destruct (run_keeps path_exists o r) as (r' & Hr' & _).
      rewrite Hr'. by apply (Hstep o r).
    - by destruct o. }
  specialize (Hall ops None I). rewrite <- Hops in Hall. exact Hall.
Qed.

Lemma dict_get_Forall (P : branch → Prop) (k : string) (v : branch) (d : dict) :
  dict_get k d = Some v → Forall (λ kv, P kv.2) d → P v.
Proof.
  induction d as [|[k' v'] d IH]; simpl; [done|].
  intros Hget [Hv Hd]%Forall_cons.
  destruct (decide (k = k')); [by injection Hget as <- | by apply IH].
Qed.

Lemma dict_alter_Forall (P Q : branch → Prop) (f : branch → branch) (k : string) (d : dict) :
  (∀ v, P v → Q v) →
  (∀ v, P v → Q (f v)) →
  Forall (λ kv, P kv.2) d → Forall (λ kv, Q kv.2) (dict_alter f k d).
Proof.
  intros HPQ Hf. induction d as [|[k' v] d IH]; simpl; [done|].
  intros [Hv Hd]%Forall_cons. destruct (decide (k = k')).
  - apply Forall_cons. split; [by apply Hf|].
    eapply Forall_impl; [exact Hd|]. intros kv. apply HPQ.
  - apply Forall_cons. split; [by apply HPQ | by apply IH].
Qed.

Lemma foldl_alter_Forall (P : branch → Prop) (f : branch → branch) (ks : list string) :
  (∀ v, P v → P (f v)) →
  ∀ d : dict, Forall (λ kv, P kv.2) d →
              Forall (λ kv, P kv.2) (foldl (λ bs name, dict_alter f name bs) d ks).
Proof.
  intros Hf. induction ks as [|k ks IH]; intros d Hd; simpl; [done|].
  apply IH. by apply (dict_alter_Forall P P).
Qed.

Lemma branch_ok_flag (n : nat) (a : bool) (v : branch) :
  branch_ok n v → branch_ok n (set_active a v).
Proof. done. Qed.

Lemma branch_ok_resolved (n : nat) (resolution : string) (src tgt : list Z) (a : bool) :
  branch_ok n (Branch src a) →
  branch_ok n (Branch (resolved_source resolution src tgt) a).
Proof.
  unfold branch_ok, resolved_source. simpl. intros [Hnd Hb].
  destruct (decide (resolution = "s")); [|done].
  split; [by apply NoDup_filter|].
  apply Forall_forall. intros x [_ Hx]%list_elem_of_filter.
  rewrite Forall_forall in Hb. by apply Hb.
Qed.

Lemma branch_ok_extend (n : nat) (src tgt : list Z) (a a' : bool) :
  branch_ok n (Branch src a) →
  branch_ok n (Branch tgt a') →
  branch_ok n (Branch (extend_pure src tgt) a').
Proof.
  unfold branch_ok. simpl. intros [_ Hs] [Hnd Ht].
  destruct (extend_pure_added src tgt) as (added & -> & Hnda & Hmem & _).
  split.
  - apply NoDup_app. split; [done|]. split; [|done].
    intros x Hx [_ Hn]%Hmem. done.
  - apply Forall_app. split; [done|]. apply Forall_forall.
    intros x [Hx _]%Hmem. rewrite Forall_forall in Hs. by apply Hs.
Qed.

Lemma branch_ok_append (n : nat) (v : branch) :
  branch_ok n v → branch_ok (S n) (append_commit (Z.of_nat n + 1) v).
Proof.
  unfold branch_ok, append_commit. simpl. intros [Hnd Hb]. split.
  - apply NoDup_app. split; [done|]. split; [|apply NoDup_singleton].
    intros x Hx ->%list_elem_of_singleton.
    rewrite Forall_forall in Hb. specialize (Hb _ Hx). lia.
  - apply Forall_app. split.
    + eapply Forall_impl; [exact Hb|]. simpl. intros x. lia.
    + apply Forall_singleton. lia.
Qed.

Lemma branch_ok_mono (n : nat) (v : branch) : branch_ok n v → branch_ok (S n) v.
Proof.
  unfold branch_ok. intros [Hnd Hb]. split; [done|].
  eapply Forall_impl; [exact Hb|]. simpl. intros x. lia.
Qed.

(** What a merge stores, as an update of the two entries. *)
Lemma kazi_merge_stored (source_branch target_branch resolution : string) (r : repo) :
  ∃ ls lt,
    (kazi_merge source_branch target_branch resolution (Some r)).2 =
      Some (Repo (staging_file r) (commits_file r)
              (dict_alter (set_commits lt) target_branch
                 (dict_alter (set_commits ls) source_branch (branches_file r)))) ∧
    ∀ n a a',
      branch_ok n (Branch (commits_of source_branch (branches_file r)) a) →
      branch_ok n (Branch (commits_of target_branch (branches_file r)) a') →
      branch_ok n (Branch ls a) ∧ branch_ok n (Branch lt a').
Proof.
  destruct (dict_mem source_branch (branches_file r)) eqn:Hs;
    [destruct (dict_mem target_branch (branches_file r)) eqn:Ht|].
  - destruct (decide (source_branch = target_branch)) as [<-|Hne].
    + destruct (kazi_merge_self source_branch resolution r Hs) as [out ->].
      exists (if decide (resolution = "s") then []
              else commits_of source_branch (branches_file r)),
             (if decide (resolution = "s") then []
              else commits_of source_branch (branches_file r)).
      split.
      { cbn [snd]. rewrite dict_alter_alter. do 2 f_equal. }
      intros n a a' Hsrc Htgt. rewrite <- (resolved_source_self resolution).
      split; by apply branch_ok_resolved.
    + destruct (kazi_merge_distinct source_branch target_branch resolution r Hne Hs Ht)
        as [out ->].
      eexists _, _. split; [done|].
      intros n a a' Hsrc Htgt.
      pose proof (branch_ok_resolved n resolution _
                    (commits_of target_branch (branches_file r)) a Hsrc) as Hpost.
      split; [done|]. by apply (branch_ok_extend n _ _ a a').
  - exists (commits_of source_branch (branches_file r)),
           (commits_of target_branch (branches_file r)).
    split; [|done]. unfold kazi_merge. rewrite Hs, Ht. simpl.
    rewrite set_commits_id, set_commits_id. by destruct r.
  - exists (commits_of source_branch (branches_file r)),
           (commits_of target_branch (branches_file r)).
    split; [|done]. unfold kazi_merge. rewrite Hs. simpl.
    rewrite set_commits_id, set_commits_id. by destruct r.
Qed.
End HistoryInv.

Section HistoryProps.
Variable path_exists : string → bool.

(** No method rewrites the log: it stays, or gains one commit at its end. *)
Lemma run_log (o : op) (r : repo) :
  ∃ r', (run path_exists o (Some r)).2 = Some r' ∧
        (commits_file r' = commits_file r ∨
         ∃ now msg a, r' = committed_to now msg a r).
Proof.
  destruct o as [|p|now msg| |n|n|s t res|a b]; cbn [run].
  - exists r. by split; [|left].
  - unfold kazi_add. destruct (negb (path_exists p)); [exists r; by split; [|left]|].
    destruct (decide (p ∈ staging_file r)); [exists r; by split; [|left]|].
    eexists. split; [done|]. by left.
  - unfold kazi_commit. destruct (staging_file r) eqn:Hst; [exists r; by split; [|left]|].
    destruct (first_active (branches_file r)) as [a|]; [|exists r; by split; [|left]].
    eexists. split; [done|]. right. exists now, msg, a.
    unfold committed_to, next_id. by rewrite Hst.
  - exists r. split; [|by left].
    unfold kazi_commit_history. by destruct (commits_file r).
  - unfold kazi_create_branch.
    destruct (dict_mem n (branches_file r)); [exists r; by split; [|left]|].
    eexists. split; [done|]. by left.
  - unfold kazi_checkout. destruct (dict_mem n (branches_file r)); simpl;
      [|exists r; by split; [|left]].
    eexists. split; [done|]. by left.
  - destruct (kazi_merge_shape s t res r) as (r' & Hr' & _ & Hc & _).
    exists r'. split; [done | by left].
  - unfold kazi_diff.
    destruct (negb (dict_mem a (branches_file r)) || negb (dict_mem b (branches_file r)));
      exists r; by split; [|left].
Qed.

Lemma history_inv_step (o : op) (r r' : repo) :
  history_inv r → (run path_exists o (Some r)).2 = Some r' → history_inv r'.
Proof.
  intros Hinv. pose proof Hinv as [Hids Hrefs].
  destruct o as [|p|now msg| |n|n|s t res|a b]; cbn [run].
  - by intros [= <-].
  - unfold kazi_add. destruct (negb (path_exists p)); [by intros [= <-]|].
    destruct (decide (p ∈ staging_file r)); intros [= <-]; by split.
  - unfold kazi_commit. destruct (staging_file r); [by intros [= <-]|].
    destruct (first_active (branches_file r)) as [a|]; [|by intros [= <-]].
    intros [= <-]. unfold history_inv. simpl.
    rewrite length_app, Nat.add_1_r. split.
    + rewrite fmap_app, Hids, seqZ_S. simpl. do 2 f_equal. lia.
    + eapply dict_alter_Forall; [| |exact Hrefs].
      * apply branch_ok_mono.
      * apply branch_ok_append.
  - unfold kazi_commit_history. destruct (commits_file r); by intros [= <-].
  - unfold kazi_create_branch, dict_set.
    destruct (dict_mem n (branches_file r)); [by intros [= <-]|].
    intros [= <-]. split; [done|]. simpl. apply Forall_app. split; [done|].
    apply Forall_singleton. split; constructor.
  - unfold kazi_checkout. destruct (dict_mem n (branches_file r)); simpl;
      [|by intros [= <-]].
    intros [= <-]. split; [done|]. simpl.
    apply (dict_alter_Forall (branch_ok (length (commits_file r)))); [done|done|].
    by apply foldl_alter_Forall.
  - destruct (kazi_merge_stored s t res r) as (ls & lt & -> & Hok).
    intros [= <-]. split; [done|]. simpl.
    assert (∀ k, branch_ok (length (commits_file r))
                   (Branch (commits_of k (branches_file r)) true)) as Hk.
    { intros k. unfold commits_of.
      destruct (dict_get k (branches_file r)) as [v|] eqn:Hv; [|split; constructor].
      by apply (dict_get_Forall _ _ _ _ Hv) in Hrefs. }
    destruct (Hok _ true true (Hk s) (Hk t)) as [Hls Hlt].
    apply (dict_alter_Forall (branch_ok (length (commits_file r)))); [done|done|].
    by apply (dict_alter_Forall (branch_ok (length (commits_file r)))).
  - unfold kazi_diff.
    destruct (negb (dict_mem a (branches_file r)) || negb (dict_mem b (branches_file r)));
      by intros [= <-].
Qed.

Lemma reachable_history_inv (r : repo) :
  reachable path_exists (Some r) → history_inv r.
Proof.
  apply reachable_ind.
  - split; [done|]. repeat constructor.
  - intros o r1 r2. apply history_inv_step.
Qed.
End HistoryProps.

(** X12. In a repository reached through the methods the commits of the log
    carry the ids 1, 2, 3, ... in log order: no id is skipped, reused or
    handed out twice. *)
Theorem reachable_commit_ids (path_exists : string → bool) (r : repo) :
  reachable path_exists (Some r) →
  id <$> commits_file r = seqZ 1 (Z.of_nat (length (commits_file r))) ∧
  (∀ i c, commits_file r !! i = Some c → id c = Z.of_nat i + 1) ∧
  NoDup (id <$> commits_file r).
Proof.
  intros [Hids _]%reachable_history_inv. split; [done|]. split.
  - intros i c Hc.
    assert ((id <$> commits_file r) !! i = Some (id c)) as Hi
      by (by rewrite list_lookup_fmap, Hc).
    rewrite Hids in Hi. apply lookup_seqZ in Hi as [-> _]. lia.
  - rewrite Hids. apply NoDup_seqZ.
Qed.

Lemma reachable_commit_ids_witness :
  id <$> commits_file two_branches = seqZ 1 (Z.of_nat (length (commits_file two_branches))) ∧
  (∀ i c, commits_file two_branches !! i = Some c → id c = Z.of_nat i + 1) ∧
  NoDup (id <$> commits_file two_branches).
Proof.
  apply (reachable_commit_ids all_exist two_branches).
  exists [Init; Add "x.txt"; CommitOp "t0" "first"; CreateBranch "feature";
          Checkout "feature"; Add "y.txt"; CommitOp "t1" "second"].
  reflexivity.
Defined.

(** X13. In a repository reached through the methods no branch refers to a
    commit the log does not have, and no branch lists a commit twice. *)
Theorem reachable_no_dangling (path_exists : string → bool) (r : repo) (k : string) (v : branch) :
  reachable path_exists (Some r) →
  dict_get k (branches_file r) = Some v →
  NoDup (commits v) ∧
  ∀ c, c ∈ commits v → ∃ cm, cm ∈ commits_file r ∧ id cm = c.
Proof.
  intros [Hids Hrefs]%reachable_history_inv Hv.
  apply (dict_get_Forall _ _ _ _ Hv) in Hrefs as [Hnd Hb].
  split; [done|]. intros c Hc.
  rewrite Forall_forall in Hb. specialize (Hb c Hc).
  assert (c ∈ id <$> commits_file r) as Hin.
  { rewrite Hids. apply elem_of_seqZ. lia. }
  apply list_elem_of_fmap in Hin as (cm & -> & Hcm). by exists cm.
Qed.

Lemma reachable_no_dangling_witness :
  NoDup [2] ∧
  ∀ c, c ∈ [2] → ∃ cm, cm ∈ commits_file two_branches ∧ id cm = c.
Proof.
  apply (reachable_no_dangling all_exist two_branches "feature" (Branch [2] true)).
  - exists [Init; Add "x.txt"; CommitOp "t0" "first"; CreateBranch "feature";
            Checkout "feature"; Add "y.txt"; CommitOp "t1" "second"].
    reflexivity.
  - reflexivity.
Defined.

(** X14. The log is append-only: after any run of method calls the former
    log is a prefix of the log on disk, so no record is dropped, edited or
    reordered. *)
Theorem log_append_only (path_exists : string → bool) (os : list op) (r : repo) :
  ∃ r', run_all path_exists os (Some r) = Some r' ∧
        commits_file r `prefix_of` commits_file r'.
Proof.
  revert r. induction os as [|o os IH]; intros r; [by exists r|].
  rewrite run_all_cons.
  destruct (run_log path_exists o r) as (r1 & -> & Hlog).
  destruct (IH r1) as (r' & Hr' & Hpre). exists r'. split; [done|].
  etrans; [|exact Hpre].
  destruct Hlog as [->|(now & msg & a & ->)]; [done|].
  simpl. by apply prefix_app_r.
Qed.

(** X15. In a repository reached through the methods no call ends in an
    exception: every method, on any arguments and any answer to the merge
    prompt, returns and leaves a repository on disk. *)
Theorem reachable_never_raises (path_exists : string → bool) (r : repo) (o : op) :
  reachable path_exists (Some r) →
  ∃ out r', run path_exists o (Some r) = (Returned out, Some r').
Proof.
  intros (_ & _ & Hone)%reachable_inv.
  destruct o as [|p|now msg| |n|n|s t res|a b]; cbn [run].
  - by eexists _, _.
  - unfold kazi_add. destruct (negb (path_exists p)); [by eexists _, _|].
    destruct (decide (p ∈ staging_file r)); by eexists _, _.
  - unfold kazi_commit. destruct (staging_file r); [by eexists _, _|].
    rewrite first_active_head.
    destruct (one_active_inv _ Hone) as [a ->]. by eexists _, _.
  - unfold kazi_commit_history. destruct (commits_file r); by eexists _, _.
  - unfold kazi_create_branch. destruct (dict_mem n (branches_file r)); by eexists _, _.
  - unfold kazi_checkout. destruct (dict_mem n (branches_file r)); by eexists _, _.
  - destruct (dict_mem s (branches_file r)) eqn:Hs;
      [destruct (dict_mem t (branches_file r)) eqn:Ht|].
    + destruct (kazi_merge_lists s t res r Hs Ht) as (out & r' & -> & _).
      by exists out, r'.
    + unfold kazi_merge. rewrite Hs, Ht. by eexists _, _.
    + unfold kazi_merge. rewrite Hs. by eexists _, _.
  - unfold kazi_diff.
    destruct (negb (dict_mem a (branches_file r)) || negb (dict_mem b (branches_file r)));
      by eexists _, _.
Qed.

Lemma reachable_never_raises_witness :
  ∃ out r', run all_exist (CommitOp "t0" "first") (Some fresh) = (Returned out, Some r').
Proof.
  apply (reachable_never_raises all_exist fresh (CommitOp "t0" "first")).
  exists [Init]. reflexivity.
Defined.

(** ** kazi_merge, further *)

Lemma extend_pure_fresh (src : list Z) : ∀ tgt,
  NoDup src → (∀ c, c ∈ src → c ∉ tgt) → extend_pure src tgt = tgt ++ src.
Proof.
  induction src as [|c src IH]; intros tgt Hnd Hfresh.
  - by rewrite app_nil_r.
  - apply NoDup_cons in Hnd as [Hc Hnd].
    rewrite extend_pure_cons, decide_False by (apply Hfresh; by left).
    rewrite IH; [by rewrite <- app_assoc | done |].
    intros x Hx [Hin|Hin%list_elem_of_singleton]%elem_of_app.
    + apply (Hfresh x); [by right | done].
    + by subst.
Qed.

(** X16. A merge without conflicts asks nothing: when two different existing
    branches share no id, the call prints only the final line, whatever would
    have been answered; the source is left as it was, and if it lists no id
    twice the target becomes its former list followed by the source list. *)
Theorem merge_without_conflicts (source_branch target_branch resolution : string) (r : repo) :
  source_branch ≠ target_branch →
  dict_mem source_branch (branches_file r) = true →
  dict_mem target_branch (branches_file r) = true →
  conflicts_of source_branch target_branch (branches_file r) = [] →
  ∃ r',
    kazi_merge source_branch target_branch resolution (Some r) =
      (Returned [Merged source_branch target_branch], Some r') ∧
    commits_of source_branch (branches_file r') = commits_of source_branch (branches_file r) ∧
    (NoDup (commits_of source_branch (branches_file r)) →
       commits_of target_branch (branches_file r') =
         commits_of target_branch (branches_file r) ++
         commits_of source_branch (branches_file r)).
Proof.
  intros Hne Hs Ht Hc.
  assert (∀ c, c ∈ commits_of source_branch (branches_file r) →
               c ∉ commits_of target_branch (branches_file r)) as Hfresh.
  { intros c Hin Hin'.
    assert (c ∈ conflicts_of source_branch target_branch (branches_file r)) as H
      by (by apply list_elem_of_filter).
    rewrite Hc in H. inversion H. }
  assert (resolved_source resolution (commits_of source_branch (branches_file r))
            (commits_of target_branch (branches_file r)) =
          commits_of source_branch (branches_file r)) as Hpost.
  { unfold resolved_source. destruct (decide (resolution = "s")); [|done].
    pose proof (remove_each_filter
                  (λ c, c ∈ commits_of target_branch (branches_file r))
                  (commits_of source_branch (branches_file r))) as Hrem.
    fold (conflicts_of source_branch target_branch (branches_file r)) in Hrem.
    rewrite Hc in Hrem. simpl in Hrem. by injection Hrem as <-. }
  destruct (kazi_merge_lists source_branch target_branch resolution r Hs Ht)
    as (out & r' & Hm & _ & _ & Hsrc & Htgt).
  rewrite Hpost in Hsrc, Htgt. rewrite decide_False in Htgt by done.
  exists r'. split; [|split; [done|]].
  - rewrite Hm. f_equal. f_equal. revert Hm. unfold kazi_merge.
    rewrite Hs, Ht, Hc. cbn [negb orb].
    destruct (extend_from source_branch target_branch _ 0 (branches_file r)); [|done].
    by intros [= <- _].
  - intros Hnd. rewrite Htgt. by apply extend_pure_fresh.
Qed.

Lemma merge_without_conflicts_witness :
  ∃ r',
    kazi_merge "feature" "main" "s" (Some two_branches) =
      (Returned [Merged "feature" "main"], Some r') ∧
    commits_of "feature" (branches_file r') = [2] ∧
    (NoDup [2] → commits_of "main" (branches_file r') = [1] ++ [2]).
Proof.
  apply (merge_without_conflicts "feature" "main" "s" two_branches);
    [discriminate | reflexivity | reflexivity | reflexivity].
Defined.

(** X17. A merge writes two entries at most: whatever the arguments, the
    answer and the table, it leaves the staging set, the commit log, the
    branch names and their order, every [active] flag and every branch other
    than source and target as they were. *)
Theorem merge_frame (source_branch target_branch resolution : string) (r : repo) :
  ∃ r',
    (kazi_merge source_branch target_branch resolution (Some r)).2 = Some r' ∧
    staging_file r' = staging_file r ∧
    commits_file r' = commits_file r ∧
    keys (branches_file r') = keys (branches_file r) ∧
    (∀ k, active <$> dict_get k (branches_file r') = active <$> dict_get k (branches_file r)) ∧
    (∀ k, k ≠ source_branch → k ≠ target_branch →
       dict_get k (branches_file r') = dict_get k (branches_file r)).
Proof.
  destruct (kazi_merge_stored source_branch target_branch resolution r)
    as (ls & lt & -> & _).
  eexists. split; [done|]. simpl. split; [done|]. split; [done|].
  split; [by rewrite !keys_alter|]. split.
  - intros k.
    assert (∀ l k' (d : dict),
              active <$> dict_get k (dict_alter (set_commits l) k' d) =
              active <$> dict_get k d) as Hflag.
    { intros l k' d. destruct (decide (k' = k)) as [->|Hne].
      - rewrite dict_get_alter. by destruct (dict_get k d).
      - by rewrite dict_get_alter_ne. }
    by rewrite !Hflag.
  - intros k Hs Ht. by rewrite !dict_get_alter_ne.
Qed.

(** X18. Merge then diff: after a merge of two existing branches, under any
    answer, [diff] of source against target finds nothing that is only in
    the source. *)
Theorem merge_then_diff (source_branch target_branch resolution : string) (r : repo) :
  dict_mem source_branch (branches_file r) = true →
  dict_mem target_branch (branches_file r) = true →
  ∃ out r' only_target,
    kazi_merge source_branch target_branch resolution (Some r) = (Returned out, Some r') ∧
    kazi_diff source_branch target_branch (Some r') =
      (Returned [OnlyIn source_branch ∅; OnlyIn target_branch only_target], Some r').
Proof.
  intros Hs Ht.
  destruct (kazi_merge_lists source_branch target_branch resolution r Hs Ht)
    as (out & r' & Hm & Hs' & Ht' & Hsrc & Htgt).
  eexists out, r', _. split; [done|].
  unfold kazi_diff. rewrite Hs', Ht'. cbn [negb orb].
  assert ((list_to_set (commits_of source_branch (branches_file r')) : gset Z)
          ∖ list_to_set (commits_of target_branch (branches_file r')) = ∅) as ->; [|done].
  apply set_eq. intros c. rewrite elem_of_difference, !elem_of_list_to_set.
  split; [|by intros H%not_elem_of_empty].
  intros [Hin Hout]. exfalso. apply Hout. rewrite Htgt. rewrite Hsrc in Hin.
  destruct (decide (source_branch = target_branch)); [done|].
  by apply extend_pure_has_source.
Qed.

Lemma merge_then_diff_witness :
  ∃ out r' only_target,
    kazi_merge "feature" "main" "t" (Some two_branches) = (Returned out, Some r') ∧
    kazi_diff "feature" "main" (Some r') =
      (Returned [OnlyIn "feature" ∅; OnlyIn "main" only_target], Some r').
Proof. apply (merge_then_diff "feature" "main" "t" two_branches); reflexivity. Defined.

(** X19. Answers other than "s" are one and the same to the disk: "t" and
    any other line leave the source branch as it was and store the same
    branches document; they differ only in the "Skipping" lines printed. *)
Theorem merge_other_answers_same
    (source_branch target_branch resolution1 resolution2 : string) (r : repo) :
  resolution1 ≠ "s" →
  resolution2 ≠ "s" →
  (kazi_merge source_branch target_branch resolution1 (Some r)).2 =
  (kazi_merge source_branch target_branch resolution2 (Some r)).2 ∧
  ∃ r', (kazi_merge source_branch target_branch resolution1 (Some r)).2 = Some r' ∧
        (source_branch ≠ target_branch →
           dict_get source_branch (branches_file r') =
           dict_get source_branch (branches_file r)).
Proof.
  intros H1 H2.
  destruct (dict_mem source_branch (branches_file r)) eqn:Hs;
    [destruct (dict_mem target_branch (branches_file r)) eqn:Ht|].
  - destruct (decide (source_branch = target_branch)) as [<-|Hne].
    + destruct (kazi_merge_self source_branch resolution1 r Hs) as [out1 ->].
      destruct (kazi_merge_self source_branch resolution2 r Hs) as [out2 ->].
      rewrite !decide_False by done. split; [done|]. eexists. split; [done|]. done.
    + destruct (kazi_merge_distinct source_branch target_branch resolution1 r Hne Hs Ht)
        as [out1 ->].
      destruct (kazi_merge_distinct source_branch target_branch resolution2 r Hne Hs Ht)
        as [out2 ->].
      unfold resolved_source. rewrite !decide_False by done.
      split; [done|]. eexists. split; [done|]. intros _. simpl.
      by rewrite dict_get_alter_ne, set_commits_id.
  - unfold kazi_merge. rewrite Hs, Ht. split; [done|]. by exists r.
  - unfold kazi_merge. rewrite Hs. split; [done|]. by exists r.
Qed.

Lemma merge_other_answers_same_witness :
  (kazi_merge "feature" "main" "t" (Some two_branches)).2 =
  (kazi_merge "feature" "main" "skip" (Some two_branches)).2 ∧
  ∃ r', (kazi_merge "feature" "main" "t" (Some two_branches)).2 = Some r' ∧
        ("feature" ≠ "main" →
           dict_get "feature" (branches_file r') =
           dict_get "feature" (branches_file two_branches)).
Proof.
  apply (merge_other_answers_same "feature" "main" "t" "skip" two_branches); discriminate.
Defined.

(** ** kazi_diff, further *)

(** X20. [diff] reads only, and swapping its arguments swaps its two lines;
    both sets are empty exactly when the two branches hold the same ids,
    whatever the order and however often each id is listed. *)
Theorem diff_empty_iff_same_ids (branch1 branch2 : string) (r : repo) :
  dict_mem branch1 (branches_file r) = true →
  dict_mem branch2 (branches_file r) = true →
  ∃ only1 only2 : gset Z,
    kazi_diff branch1 branch2 (Some r) =
      (Returned [OnlyIn branch1 only1; OnlyIn branch2 only2], Some r) ∧
    kazi_diff branch2 branch1 (Some r) =
      (Returned [OnlyIn branch2 only2; OnlyIn branch1 only1], Some r) ∧
    (only1 = ∅ ∧ only2 = ∅ ↔
     ∀ c, c ∈ commits_of branch1 (branches_file r) ↔
          c ∈ commits_of branch2 (branches_file r)).
Proof.
  intros H1 H2. eexists _, _. unfold kazi_diff. rewrite H1, H2. cbn [negb orb].
  split; [done|]. split; [done|]. split.
  - intros [He1 He2] c. split; intros Hc.
    + destruct (decide (c ∈ commits_of branch2 (branches_file r))) as [|Hn]; [done|].
      exfalso. apply (not_elem_of_empty (C:=gset Z) c). rewrite <- He1.
      apply elem_of_difference. by rewrite !elem_of_list_to_set.
    + destruct (decide (c ∈ commits_of branch1 (branches_file r))) as [|Hn]; [done|].
      exfalso. apply (not_elem_of_empty (C:=gset Z) c). rewrite <- He2.
      apply elem_of_difference. by rewrite !elem_of_list_to_set.
  - intros Hsame. split; apply set_eq; intros c;
      rewrite elem_of_difference, !elem_of_list_to_set, Hsame;
      (split; [by intros [? ?] | by intros ?%not_elem_of_empty]).
Qed.

Lemma diff_empty_iff_same_ids_witness :
  ∃ only1 only2 : gset Z,
    kazi_diff "main" "feature" (Some two_branches) =
      (Returned [OnlyIn "main" only1; OnlyIn "feature" only2], Some two_branches) ∧
    kazi_diff "feature" "main" (Some two_branches) =
      (Returned [OnlyIn "feature" only2; OnlyIn "main" only1], Some two_branches) ∧
    (only1 = ∅ ∧ only2 = ∅ ↔
     ∀ c, c ∈ commits_of "main" (branches_file two_branches) ↔
          c ∈ commits_of "feature" (branches_file two_branches)).
Proof. apply (diff_empty_iff_same_ids "main" "feature" two_branches); reflexivity. Defined.

(** ** kazi_commit_history, further *)

(** X21. In a repository reached through the methods the history listing
    writes nothing and prints "No commits yet." for an empty log, and
    otherwise one line per commit, the line at position [i] (from 0) carrying
    id [i + 1]. *)
Theorem history_lists_ids (path_exists : string → bool) (r : repo) :
  reachable path_exists (Some r) →
  ∃ lines,
    kazi_commit_history (Some r) = (Returned lines, Some r) ∧
    (commits_file r = [] → lines = [NoCommitsYet]) ∧
    (commits_file r ≠ [] →
       length lines = length (commits_file r) ∧
       ∀ i line, lines !! i = Some line →
                 ∃ m t, line = HistoryLine (Z.of_nat i + 1) m t).
Proof.
  intros [Hids _]%reachable_history_inv. unfold kazi_commit_history.
  destruct (commits_file r) as [|c0 log] eqn:Hlog.
  - exists [NoCommitsYet]. by repeat split.
  - eexists. split; [done|]. split; [done|]. intros _.
    split; [by rewrite length_map|].
    intros i line Hline. rewrite list_lookup_fmap in Hline.
    destruct ((c0 :: log) !! i) as [c|] eqn:Hc; [|done].
    injection Hline as <-. exists (message c), (timestamp c). f_equal.
    assert ((id <$> c0 :: log) !! i = Some (id c)) as Hi
      by (by rewrite list_lookup_fmap, Hc).
    rewrite Hids in Hi. apply lookup_seqZ in Hi as [-> _]. lia.
Qed.

Lemma history_lists_ids_witness :
  ∃ lines,
    kazi_commit_history (Some two_branches) = (Returned lines, Some two_branches) ∧
    (commits_file two_branches = [] → lines = [NoCommitsYet]) ∧
    (commits_file two_branches ≠ [] →
       length lines = length (commits_file two_branches) ∧
       ∀ i line, lines !! i = Some line →
                 ∃ m t, line = HistoryLine (Z.of_nat i + 1) m t).
Proof.
  apply (history_lists_ids all_exist two_branches).
  exists [Init; Add "x.txt"; CommitOp "t0" "first"; CreateBranch "feature";
          Checkout "feature"; Add "y.txt"; CommitOp "t1" "second"].
  reflexivity.
Defined.
